(** * Mail agent: mailbox store, stage processors and orchestrator

    A shallow embedding of the Python sources

      - Data_Storage_Vault/add_mail.py, update_mail.py, delete_mail.py
      - Agent_Brain/connection_gateway.py, smart_categorizer.py,
        action_item_extractor.py, AI_mail_drafter.py
      - Backend/mail_func.py, Backend/load_mail.py

    Modelling conventions.

      - A JSON value is a [jval]; a mail record (a Python dict) is a
        [gmap string jval]; the mailbox file holds a [document].  JSON
        floats are not modelled.
      - A Python [str] is a [string] with one character for each code
        point.  The code points are those up to U+00FF (Latin-1), and on
        them the character classes ([str.strip], [\s], [\d], [\w], [\b],
        [str.lower], [str.splitlines], [int]) are the ones of Python; a
        text with a code point beyond U+00FF has no counterpart here.
      - Time is an integer number of milliseconds; [time.sleep] advances the
        clock and nothing else does.
      - One process runs at a time: a lock directory that exists when an
        operation starts stays there until the operation times out.
      - Code of the Python runtime that the sources call but do not define
        ([json.loads], [json.dumps], [repr], [time.strftime]) is a
        [runtime] record the model is parameterised by.  *)

From stdpp Require Import gmap strings list fin_maps pretty.
From Stdlib Require Import Ascii ZArith Lia.

#[local] Set Warnings "-register-all".
#[local] Open Scope Z_scope.

(** ** JSON values and the Python primitives the sources apply to them *)

Inductive jval : Type :=
  | JNull
  | JBool (b : bool)
  | JInt (n : Z)
  | JStr (s : string)
  | JList (l : list jval)
  | JObj (o : list (string * jval)).

Definition estr : string := EmptyString.

(** [d.get(k)] on a mail record: [None] when the key is absent. *)
Definition mget (k : string) (m : gmap string jval) : jval :=
  default JNull (m !! k).

(** [d.get(k, dflt)]. *)
Definition mget_or (k : string) (dflt : jval) (m : gmap string jval) : jval :=
  default dflt (m !! k).

(** [k in d]. *)
Definition mhas (k : string) (m : gmap string jval) : bool :=
  bool_decide (is_Some (m !! k)).

(** [d.setdefault(k, v)]. *)
Definition setdefault (k : string) (v : jval) (m : gmap string jval)
  : gmap string jval :=
  match m !! k with
  | Some _ => m
  | None => <[k := v]> m
  end.

(** Lookup in a nested JSON object (items in insertion order). *)
Fixpoint obj_get (k : string) (o : list (string * jval)) : option jval :=
  match o with
  | [] => None
  | (k', v) :: o' => if String.eqb k k' then Some v else obj_get k o'
  end.

(** Truth value of a JSON value, as [if x:], [not x] and [x or y] see it. *)
Definition py_truthy (v : jval) : bool :=
  match v with
  | JNull => false
  | JBool b => b
  | JInt n => negb (n =? 0)
  | JStr s => negb (String.eqb s estr)
  | JList l => match l with [] => false | _ => true end
  | JObj o => match o with [] => false | _ => true end
  end.

(** [x or y]. *)
Definition py_or (x y : jval) : jval := if py_truthy x then x else y.

(** [x == y]: structural, except that [True == 1] and [False == 0], and
    that dicts compare without regard to the order of their items. *)
Fixpoint py_eq (a b : jval) {struct a} : bool :=
  match a, b with
  | JNull, JNull => true
  | JBool x, JBool y => Bool.eqb x y
  | JBool x, JInt y => Z.b2z x =? y
  | JInt x, JBool y => x =? Z.b2z y
  | JInt x, JInt y => x =? y
  | JStr x, JStr y => String.eqb x y
  | JList xs, JList ys =>
      (fix go (xs ys : list jval) {struct xs} : bool :=
         match xs, ys with
         | [], [] => true
         | x :: xs', y :: ys' => py_eq x y && go xs' ys'
         | _, _ => false
         end) xs ys
  | JObj xs, JObj ys =>
      (length xs =? length ys)%nat &&
      (fix go (xs : list (string * jval)) {struct xs} : bool :=
         match xs with
         | [] => true
         | (k, x) :: xs' =>
             match obj_get k ys with
             | Some y => py_eq x y && go xs'
             | None => false
             end
         end) xs
  | _, _ => false
  end.

(** ** Strings *)

Definition chars (s : string) : list ascii := String.list_ascii_of_string s.
Definition text (l : list ascii) : string := String.string_of_list_ascii l.

Definition nl : string := String "010"%char EmptyString.
Definition dquote : ascii := "034"%char.
Definition squote : ascii := "039"%char.

Definition code (c : ascii) : nat := nat_of_ascii c.

(** [str.isspace], which is also the class [\s] and what [str.strip]
    removes: TAB..CR, FS..US, the blank, and beyond ASCII the next-line
    character U+0085 and the no-break space U+00A0. *)
Definition is_space (c : ascii) : bool :=
  let n := code c in
  ((9 <=? n) && (n <=? 13) || (28 <=? n) && (n <=? 32)
   || (n =? 133) || (n =? 160))%nat.

(** The blanks [int] allows around a number: those of [is_space] but for
    FS..US. *)
Definition is_int_space (c : ascii) : bool :=
  let n := code c in
  ((9 <=? n) && (n <=? 13) || (n =? 32) || (n =? 133) || (n =? 160))%nat.

Definition is_digit (c : ascii) : bool :=
  let n := code c in ((48 <=? n) && (n <=? 57))%nat.

(** The letters A to Z, and a to z. *)
Definition is_upper (c : ascii) : bool :=
  let n := code c in ((65 <=? n) && (n <=? 90))%nat.

Definition is_lower (c : ascii) : bool :=
  let n := code c in ((97 <=? n) && (n <=? 122))%nat.

(** The letters and numbers beyond ASCII, [str.isalnum] on U+0080 to
    U+00FF: the ordinal indicators, the superscripts 1 to 3, the micro
    sign, the fractions, and the letters from U+00C0 on, which are all
    but the multiplication and the division sign. *)
Definition is_latin1_alnum (c : ascii) : bool :=
  let n := code c in
  ((n =? 170) || (n =? 178) || (n =? 179) || (n =? 181) || (n =? 185)
   || (n =? 186) || (188 <=? n) && (n <=? 190)
   || (192 <=? n) && (n <=? 214) || (216 <=? n) && (n <=? 246)
   || (248 <=? n))%nat.

(** [\w]: a letter, a number or the underscore. *)
Definition is_word (c : ascii) : bool :=
  is_digit c || is_upper c || is_lower c || Ascii.eqb c "_"%char
  || is_latin1_alnum c.

(** The capital letters beyond ASCII, U+00C0 to U+00DE without the
    multiplication sign; their small letters are 32 further on, as in
    ASCII. *)
Definition is_latin1_upper (c : ascii) : bool :=
  let n := code c in
  ((192 <=? n) && (n <=? 222) && negb (n =? 215))%nat.

Definition lower_char (c : ascii) : ascii :=
  if is_upper c || is_latin1_upper c then ascii_of_nat (code c + 32) else c.

(** [s.lower()]. *)
Definition lower (s : string) : string := text (lower_char <$> chars s).

Fixpoint lstrip_by (p : ascii -> bool) (l : list ascii) : list ascii :=
  match l with
  | c :: l' => if p c then lstrip_by p l' else l
  | [] => []
  end.

Definition strip_by (p : ascii -> bool) (l : list ascii) : list ascii :=
  rev (lstrip_by p (rev (lstrip_by p l))).

(** [s.strip()]. *)
Definition strip (s : string) : string := text (strip_by is_space (chars s)).

(** [s.strip(c)] for a one-character argument. *)
Definition strip_char (c : ascii) (s : string) : string :=
  text (strip_by (Ascii.eqb c) (chars s)).

Fixpoint starts_with (p l : list ascii) : bool :=
  match p, l with
  | [], _ => true
  | a :: p', b :: l' => Ascii.eqb a b && starts_with p' l'
  | _ :: _, [] => false
  end.

Fixpoint contains_chars (needle hay : list ascii) : bool :=
  starts_with needle hay ||
  match hay with
  | [] => false
  | _ :: hay' => contains_chars needle hay'
  end.

(** [needle in hay]. *)
Definition contains (needle hay : string) : bool :=
  contains_chars (chars needle) (chars hay).

(** [s.startswith(p)] and [s.endswith(p)]. *)
Definition startswith (p s : string) : bool := starts_with (chars p) (chars s).
Definition endswith (p s : string) : bool :=
  starts_with (rev (chars p)) (rev (chars s)).

(** [s.replace(old, new)] for a non-empty [old]. *)
Fixpoint replace_chars (old new l : list ascii) (skip : nat) : list ascii :=
  match l with
  | [] => []
  | c :: l' =>
      match skip with
      | S k => replace_chars old new l' k
      | O =>
          if starts_with old l
          then new ++ replace_chars old new l' (length old - 1)
          else c :: replace_chars old new l' 0
      end
  end.

Definition replace (old new s : string) : string :=
  text (replace_chars (chars old) (chars new) (chars s) 0).

(** [s[:n]]. *)
Definition prefix_of (n : nat) (s : string) : string := text (take n (chars s)).

(** [s[i:j]] for [0 <= i], [0 <= j]. *)
Definition slice (i j : nat) (l : list ascii) : list ascii :=
  take (j - i) (drop i l).

(** [len(s)]. *)
Definition len (s : string) : nat := length (chars s).

(** The line boundaries of [str.splitlines]: LF, VT, FF, CR, FS, GS, RS
    and the next-line character U+0085. *)
Definition is_linebreak (c : ascii) : bool :=
  let n := code c in
  ((10 <=? n) && (n <=? 13) || (28 <=? n) && (n <=? 30) || (n =? 133))%nat.

Fixpoint take_line (l : list ascii) : list ascii :=
  match l with
  | [] => []
  | c :: l' => if is_linebreak c then [] else c :: take_line l'
  end.

(** [s.splitlines()[0]]: [None] stands for the [IndexError] on the empty
    string. *)
Definition first_line (s : string) : option string :=
  match chars s with
  | [] => None
  | l => Some (text (take_line l))
  end.

(** [int(s)] for a string: blanks ([is_int_space]) around an optionally
    signed run of decimal digits, single underscores allowed between
    digits. *)
Fixpoint digits_value (acc : Z) (prev_digit : bool) (l : list ascii)
  : option Z :=
  match l with
  | [] => if prev_digit then Some acc else None
  | c :: l' =>
      if is_digit c
      then digits_value (10 * acc + Z.of_nat (code c - 48)) true l'
      else if Ascii.eqb c "_"%char && prev_digit
           then match l' with
                | d :: _ => if is_digit d then digits_value acc false l'
                            else None
                | [] => None
                end
           else None
  end.

Definition int_of_string (s : string) : option Z :=
  match strip_by is_int_space (chars s) with
  | c :: l =>
      if Ascii.eqb c "-"%char then Z.opp <$> digits_value 0 false l
      else if Ascii.eqb c "+"%char then digits_value 0 false l
      else digits_value 0 false (c :: l)
  | [] => None
  end.

(** [int(v)]: [None] stands for the [TypeError] or [ValueError]. *)
Definition py_int (v : jval) : option Z :=
  match v with
  | JInt n => Some n
  | JBool b => Some (Z.b2z b)
  | JStr s => int_of_string s
  | _ => None
  end.

Definition py_type_name (v : jval) : string :=
  match v with
  | JNull => "NoneType"
  | JBool _ => "bool"
  | JInt _ => "int"
  | JStr _ => "str"
  | JList _ => "list"
  | JObj _ => "dict"
  end.

(** ** Regular expressions

    A backtracking matcher with the priorities of Python's [re]: an
    alternative tries its left branch first, a greedy repetition tries the
    longest run first and a lazy one the shortest.  Repetition is over a
    character class, which is all the patterns of the sources need.  A
    position in the subject is a zipper: the characters before it, in
    reverse, and the characters from it on. *)

Module Re.

Inductive regex : Type :=
  | Eps
  | Chr (cls : ascii -> bool)
  | Seq (r1 r2 : regex)
  | Alt (r1 r2 : regex)
  | Rep (greedy : bool) (lo : nat) (hi : option nat) (cls : ascii -> bool)
  | Bol (multiline : bool)
  | Eol (multiline : bool)
  | WordB.

Definition is_nl (c : ascii) : bool := Ascii.eqb c "010"%char.

(** [^]: at the start, and with MULTILINE also after a newline. *)
Definition at_bol (multiline : bool) (pre : list ascii) : bool :=
  match pre with
  | [] => true
  | c :: _ => multiline && is_nl c
  end.

(** [$]: at the end and before a final newline, and with MULTILINE
    before every newline. *)
Definition at_eol (multiline : bool) (rest : list ascii) : bool :=
  match rest with
  | [] => true
  | c :: rest' =>
      is_nl c && (multiline || match rest' with [] => true | _ => false end)
  end.

(** [\b]: exactly one side is a word character. *)
Definition at_wordb (pre rest : list ascii) : bool :=
  xorb (match pre with c :: _ => is_word c | [] => false end)
       (match rest with c :: _ => is_word c | [] => false end).

Definition below (hi : option nat) (n : nat) : bool :=
  match hi with
  | Some h => (n <? h)%nat
  | None => true
  end.

Section Run.
Context {R : Type}.

(** [n] characters of the class are consumed already. *)
Fixpoint rep (greedy : bool) (lo : nat) (hi : option nat)
    (cls : ascii -> bool) (k : list ascii -> list ascii -> option R)
    (n : nat) (pre rest : list ascii) {struct rest} : option R :=
  let here := if (lo <=? n)%nat then k pre rest else None in
  match rest with
  | c :: rest' =>
      if cls c && below hi n
      then
        if greedy
        then match rep greedy lo hi cls k (S n) (c :: pre) rest' with
             | Some x => Some x
             | None => here
             end
        else match here with
             | Some x => Some x
             | None => rep greedy lo hi cls k (S n) (c :: pre) rest'
             end
      else here
  | [] => here
  end.

Fixpoint run (r : regex) (pre rest : list ascii)
    (k : list ascii -> list ascii -> option R) {struct r} : option R :=
  match r with
  | Eps => k pre rest
  | Chr cls =>
      match rest with
      | c :: rest' => if cls c then k (c :: pre) rest' else None
      | [] => None
      end
  | Seq r1 r2 => run r1 pre rest (fun pre' rest' => run r2 pre' rest' k)
  | Alt r1 r2 =>
      match run r1 pre rest k with
      | Some x => Some x
      | None => run r2 pre rest k
      end
  | Rep greedy lo hi cls => rep greedy lo hi cls k 0 pre rest
  | Bol ml => if at_bol ml pre then k pre rest else None
  | Eol ml => if at_eol ml rest then k pre rest else None
  | WordB => if at_wordb pre rest then k pre rest else None
  end.
End Run.

(** A match is the pair of its start and end offsets. *)
Definition span : Type := nat * nat.

(** [pattern.match] at a position: the end offset of the match. *)
Definition match_at (r : regex) (pre rest : list ascii) : option nat :=
  run r pre rest (fun pre' _ => Some (length pre')).

(** The leftmost match at or after a position. *)
Fixpoint search_from (r : regex) (pre rest : list ascii) {struct rest}
  : option span :=
  match match_at r pre rest with
  | Some e => Some (length pre, e)
  | None =>
      match rest with
      | c :: rest' => search_from r (c :: pre) rest'
      | [] => None
      end
  end.

(** [re.search(r, s)] and [re.match(r, s)]. *)
Definition search (r : regex) (s : list ascii) : option span :=
  search_from r [] s.

Definition matches (r : regex) (s : list ascii) : bool :=
  bool_decide (is_Some (match_at r [] s)).

(** The non-overlapping matches from a position on, left to right.  After
    an empty match the scan moves one character on; the patterns of the
    sources never match the empty string. *)
Fixpoint find_all (fuel : nat) (r : regex) (s : list ascii) (from : nat)
  : list span :=
  match fuel with
  | O => []
  | S fuel' =>
      match search_from r (rev (take from s)) (drop from s) with
      | None => []
      | Some (b, e) =>
          (b, e) :: (if (e <=? b)%nat
                     then if (e <? length s)%nat
                          then find_all fuel' r s (S e) else []
                     else find_all fuel' r s e)
      end
  end.

(** [re.finditer(r, s)]. *)
Definition finditer (r : regex) (s : list ascii) : list span :=
  find_all (S (length s)) r s 0.

(** The pieces of [s] between the matches, from offset [from]. *)
Fixpoint between (s : list ascii) (from : nat) (ms : list span)
  : list (list ascii) :=
  match ms with
  | [] => [drop from s]
  | (b, e) :: ms' => slice from b s :: between s e ms'
  end.

(** [re.split(r, s)] for a pattern without groups. *)
Definition split (r : regex) (s : list ascii) : list (list ascii) :=
  between s 0 (finditer r s).

(** [re.sub(r, repl, s)] for a literal replacement. *)
Definition sub (r : regex) (repl s : list ascii) : list ascii :=
  let fix join (ps : list (list ascii)) : list ascii :=
    match ps with
    | [] => []
    | [p] => p
    | p :: ps' => p ++ repl ++ join ps'
    end in
  join (split r s).

(** Pattern notation. *)
Definition seqs (rs : list regex) : regex := foldr Seq Eps rs.
Definition opt (r : regex) : regex := Alt r Eps.
Definition star (cls : ascii -> bool) : regex := Rep true 0 None cls.
Definition plus (cls : ascii -> bool) : regex := Rep true 1 None cls.
Definition ch (c : ascii) : regex := Chr (Ascii.eqb c).
Definition one_of (s : string) : ascii -> bool :=
  fun c => existsb (Ascii.eqb c) (chars s).
Definition lit (s : string) : regex := seqs (ch <$> chars s).
(** A literal under IGNORECASE. *)
Definition lit_i (s : string) : regex :=
  seqs ((fun c => Chr (fun x => Ascii.eqb (lower_char x) (lower_char c)))
          <$> chars s).
Definition any : ascii -> bool := fun _ => true.
Definition not_nl : ascii -> bool := fun c => negb (is_nl c).

End Re.

(** ** AI_mail_drafter.py: the text functions *)

Definition crlf : string := String "013"%char nl.

(** The fenced-block pattern of line 54, with DOTALL: three backquotes, a
    lazy run of any characters, three backquotes. *)
Definition fence_re : Re.regex :=
  Re.seqs [Re.lit "```"; Re.Rep false 0 None Re.any; Re.lit "```"].

(** The rule-line pattern of line 57, with MULTILINE: a line start, blanks,
    three or more of [-], [*], [_], blanks, a line end. *)
Definition rule_line_re : Re.regex :=
  Re.seqs [Re.Bol true; Re.star is_space;
           Re.Rep true 3 None (Re.one_of "-*_"); Re.star is_space;
           Re.Eol true].

(** The pattern of line 64, with MULTILINE: a line that starts with
    [Subject:]. *)
Definition subject_line_re : Re.regex :=
  Re.seqs [Re.Bol true; Re.lit "Subject:"; Re.star Re.not_nl; Re.Eol true].

(** The pattern of line 70: a newline, blanks, a newline, blanks, one or
    more newlines. *)
Definition blank_lines_re : Re.regex :=
  Re.seqs [Re.ch "010"; Re.star is_space; Re.ch "010"; Re.star is_space;
           Re.plus Re.is_nl].

Definition _clean_draft (txt : string) : string :=
  let t := Re.sub fence_re [] (chars txt) in
  let t := Re.sub rule_line_re [] t in
  let t := chars (replace "**" estr (text t)) in
  let t := Re.sub subject_line_re [] t in
  let t := strip_by is_space t in
  let t := Re.sub blank_lines_re (chars (nl +:+ nl)) t in
  text (strip_by is_space t).

(** The heading pattern of line 91, with IGNORECASE: a word boundary,
    [Option], blanks, an optional group of an optional [#] and blanks, one
    or more digits, a word boundary. *)
Definition option_heading_re : Re.regex :=
  Re.seqs [Re.WordB; Re.lit_i "Option"; Re.star is_space;
           Re.opt (Re.seqs [Re.opt (Re.ch "#"); Re.star is_space]);
           Re.plus is_digit; Re.WordB].

(** The label pattern of line 98, with IGNORECASE: the start of the string,
    blanks, [Option], blanks, the optional group, digits, an optional colon,
    dash or closing parenthesis, blanks. *)
Definition option_label_re : Re.regex :=
  Re.seqs [Re.Bol false; Re.star is_space; Re.lit_i "Option";
           Re.star is_space;
           Re.opt (Re.seqs [Re.opt (Re.ch "#"); Re.star is_space]);
           Re.plus is_digit; Re.opt (Re.Chr (Re.one_of ":-)"));
           Re.star is_space].

(** The separator pattern of line 102: a newline, blanks, three or more of
    [-], [*], [_], blanks, a newline. *)
Definition separator_re : Re.regex :=
  Re.seqs [Re.ch "010"; Re.star is_space;
           Re.Rep true 3 None (Re.one_of "-*_"); Re.star is_space;
           Re.ch "010"].

(** The item patterns of lines 113 and 117, with MULTILINE: a line start,
    blanks, the item number, a dot or closing parenthesis, one or more
    blanks. *)
Definition numbered_re (item : ascii) : Re.regex :=
  Re.seqs [Re.Bol true; Re.star is_space; Re.ch item;
           Re.Chr (Re.one_of ".)"); Re.plus is_space].

(** The numbering pattern of line 121: the start of the string, blanks,
    [1], a dot or closing parenthesis, blanks. *)
Definition numbered_label_re : Re.regex :=
  Re.seqs [Re.Bol false; Re.star is_space; Re.ch "1";
           Re.Chr (Re.one_of ".)"); Re.star is_space].

(** The four heuristics of [_select_best_option], one function each, on
    the text with its line ends normalised. *)

(** 1) Option headings: from the first heading to just before the second,
    without the leading label. *)
Definition select_by_option_heading (t : list ascii) : option string :=
  match Re.finditer option_heading_re t with
  | [] => None
  | (start, _) :: others =>
      let stop := match others with
                  | (second, _) :: _ => second
                  | [] => length t
                  end in
      let candidate := strip_by is_space (slice start stop t) in
      let candidate := Re.sub option_label_re [] candidate in
      Some (text (strip_by is_space candidate))
  end.

(** 2) Separator blocks: the first block of at least 30 characters, else
    the first block. *)
Definition select_by_separator (t : list ascii) : option string :=
  let sep_parts := Re.split separator_re t in
  if (1 <? length sep_parts)%nat
  then
    match find (fun part => (30 <=? length (strip_by is_space part))%nat)
               sep_parts with
    | Some part => Some (text (strip_by is_space part))
    | None => Some (text (strip_by is_space (hd [] sep_parts)))
    end
  else None.

(** 3) A numbered list: from item 1 to just before item 2, without the
    leading number. *)
Definition select_by_numbering (t : list ascii) : option string :=
  match Re.search (numbered_re "1") t with
  | None => None
  | Some (start, _) =>
      let stop := match Re.search (numbered_re "2") t with
                  | Some (second, _) => second
                  | None => length t
                  end in
      let candidate := strip_by is_space (slice start stop t) in
      let candidate := Re.sub numbered_label_re [] candidate in
      Some (text (strip_by is_space candidate))
  end.

Definition _select_best_option (raw_text : string) : string :=
  if String.eqb raw_text estr then raw_text
  else
    let t := chars (replace crlf nl raw_text) in
    match select_by_option_heading t with
    | Some block => block
    | None =>
        match select_by_separator t with
        | Some block => block
        | None =>
            match select_by_numbering t with
            | Some block => block
            | None => text (strip_by is_space t)
            end
        end
    end.

Definition fixture_options : string :=
  "Option 1: Hello" +:+ nl +:+ "Option 2: Goodbye".
Definition fixture_separators : string :=
  "Foo" +:+ nl +:+ "---" +:+ nl +:+ "Bar baz long enough text here"
        +:+ nl +:+ "---" +:+ nl +:+ "Qux".
Definition fixture_numbered : string :=
  "1. Do the thing" +:+ nl +:+ "2. Do another".

(** ** The world the program runs in *)

Inductive exn_kind : Type :=
  | ValueError
  | TypeError
  | AttributeError
  | IndexError
  | TimeoutError
  | FileNotFoundError
  | PermissionError
  | OSError
  | GatewayError.

(** A raised exception; [emsg] is [str(e)].  [GatewayError] is the
    [ConnectionError] class that connection_gateway.py declares. *)
Record exn : Type := Exn { ekind : exn_kind; emsg : string }.

(** [isinstance(e, OSError)]. *)
Definition is_OSError (k : exn_kind) : bool :=
  match k with
  | TimeoutError | FileNotFoundError | PermissionError | OSError => true
  | _ => false
  end.

(** The mailbox document of mail_inbox.json. *)
Record document : Type := Doc {
  counter : Z;
  emails : list (gmap string jval)
}.

(** What [requests.post] comes back with. *)
Inductive http_outcome : Type :=
  | NetworkFailure (msg : string)
  | HttpResponse (status_code : Z) (body : string).

(** The parts of the Python runtime the model takes as given. *)
Record runtime : Type := Runtime {
  json_loads : string -> string + jval;  (* the error message, or the value *)
  json_dumps : jval -> string;
  py_repr : jval -> string;
  strftime : Z -> string                 (* of the format of the drafter *)
}.

Record world : Type := World {
  (* files *)
  inbox : option document;
  lockdir : bool;
  prompt_library : option (list (string * string));
  error_signal : option (string * Z);
  (* clock and network *)
  now : Z;
  llm : nat -> string -> http_outcome;
  gw_calls : nat;
  (* module globals *)
  MODULE_ROOT : string;
  MIN_SECONDS_BETWEEN_LLM_CALLS : Z;
  RETRY_BACKOFF_SECONDS : Z;
  _last_llm_call : Z;
  _quota_backoff_until : Z;
  _last_quota_log : Z;
  _last_error : option (string * Z)
}.

Definition set_inbox (d : option document) (w : world) : world :=
  World d (lockdir w) (prompt_library w) (error_signal w) (now w) (llm w)
        (gw_calls w) (MODULE_ROOT w) (MIN_SECONDS_BETWEEN_LLM_CALLS w)
        (RETRY_BACKOFF_SECONDS w) (_last_llm_call w) (_quota_backoff_until w)
        (_last_quota_log w) (_last_error w).

Definition set_lockdir (b : bool) (w : world) : world :=
  World (inbox w) b (prompt_library w) (error_signal w) (now w) (llm w)
        (gw_calls w) (MODULE_ROOT w) (MIN_SECONDS_BETWEEN_LLM_CALLS w)
        (RETRY_BACKOFF_SECONDS w) (_last_llm_call w) (_quota_backoff_until w)
        (_last_quota_log w) (_last_error w).

Definition set_now (t : Z) (w : world) : world :=
  World (inbox w) (lockdir w) (prompt_library w) (error_signal w) t (llm w)
        (gw_calls w) (MODULE_ROOT w) (MIN_SECONDS_BETWEEN_LLM_CALLS w)
        (RETRY_BACKOFF_SECONDS w) (_last_llm_call w) (_quota_backoff_until w)
        (_last_quota_log w) (_last_error w).

Definition set_gw_calls (n : nat) (w : world) : world :=
  World (inbox w) (lockdir w) (prompt_library w) (error_signal w) (now w)
        (llm w) n (MODULE_ROOT w) (MIN_SECONDS_BETWEEN_LLM_CALLS w)
        (RETRY_BACKOFF_SECONDS w) (_last_llm_call w) (_quota_backoff_until w)
        (_last_quota_log w) (_last_error w).

Definition set_last_llm_call (t : Z) (w : world) : world :=
  World (inbox w) (lockdir w) (prompt_library w) (error_signal w) (now w)
        (llm w) (gw_calls w) (MODULE_ROOT w) (MIN_SECONDS_BETWEEN_LLM_CALLS w)
        (RETRY_BACKOFF_SECONDS w) t (_quota_backoff_until w)
        (_last_quota_log w) (_last_error w).

Definition set_quota_backoff_until (t : Z) (w : world) : world :=
  World (inbox w) (lockdir w) (prompt_library w) (error_signal w) (now w)
        (llm w) (gw_calls w) (MODULE_ROOT w) (MIN_SECONDS_BETWEEN_LLM_CALLS w)
        (RETRY_BACKOFF_SECONDS w) (_last_llm_call w) t
        (_last_quota_log w) (_last_error w).

Definition set_last_quota_log (t : Z) (w : world) : world :=
  World (inbox w) (lockdir w) (prompt_library w) (error_signal w) (now w)
        (llm w) (gw_calls w) (MODULE_ROOT w) (MIN_SECONDS_BETWEEN_LLM_CALLS w)
        (RETRY_BACKOFF_SECONDS w) (_last_llm_call w) (_quota_backoff_until w)
        t (_last_error w).

(** The in-memory record and, best effort, its signal file. *)
Definition set_error_record (e : option (string * Z)) (w : world) : world :=
  World (inbox w) (lockdir w) (prompt_library w) e (now w)
        (llm w) (gw_calls w) (MODULE_ROOT w) (MIN_SECONDS_BETWEEN_LLM_CALLS w)
        (RETRY_BACKOFF_SECONDS w) (_last_llm_call w) (_quota_backoff_until w)
        (_last_quota_log w) e.

(** ** Computations: a state monad over the world, with exceptions.  The
    world an exception leaves behind is kept, as in Python. *)

Definition M (A : Type) : Type := world -> (exn + A) * world.

Definition ret {A} (a : A) : M A := fun w => (inr a, w).
Definition raise {A} (k : exn_kind) (msg : string) : M A :=
  fun w => (inl (Exn k msg), w).
Definition reraise {A} (e : exn) : M A := fun w => (inl e, w).

Definition bind {A B} (m : M A) (f : A -> M B) : M B :=
  fun w =>
    match m w with
    | (inr a, w') => f a w'
    | (inl e, w') => (inl e, w')
    end.

Notation "x <- c1 ;; c2" := (bind c1 (fun x => c2))
  (at level 100, c1 at next level, right associativity).
Notation "c1 ;;; c2" := (bind c1 (fun _ => c2))
  (at level 100, right associativity).

Definition gets {A} (f : world -> A) : M A := fun w => (inr (f w), w).
Definition modify (f : world -> world) : M unit := fun w => (inr tt, f w).

(** [try: m  except Exception as e: h e]. *)
Definition try_except {A} (m : M A) (h : exn -> M A) : M A :=
  fun w =>
    match m w with
    | (inr a, w') => (inr a, w')
    | (inl e, w') => h e w'
    end.

(** [try: m  finally: c], for a clean-up that does not raise. *)
Definition try_finally {A} (m : M A) (c : world -> world) : M A :=
  fun w => let (r, w') := m w in (r, c w').

(** [time.sleep(ms)]. *)
Definition sleep (ms : Z) : M unit :=
  modify (fun w => set_now (now w + Z.max 0 ms) w).

(** ** Data_Storage_Vault: the lock directory and the atomic write *)

Definition INBOX (w : world) : string :=
  MODULE_ROOT w +:+ "/Data_Storage_Vault/mail_inbox.json".

(** The poll loop of [_acquire_lock], [timeout = 5.0] and [poll = 0.05]:
    [os.mkdir] fails while the directory exists.  The clock moves by the
    sleeps only, so [fuel] polls are enough when [fuel >= 100]. *)
Fixpoint _acquire_lock_poll (fuel : nat) (start : Z) : M unit :=
  fun w =>
    if lockdir w
    then
      if 5000 <=? now w - start
      then raise TimeoutError
             ("Failed to acquire lock for " +:+ INBOX w +:+ " within 5.0s") w
      else
        match fuel with
        | S fuel' => (sleep 50 ;;; _acquire_lock_poll fuel' start) w
        | O => raise TimeoutError
                 ("Failed to acquire lock for " +:+ INBOX w +:+ " within 5.0s")
                 w
        end
    else (inr tt, set_lockdir true w).

Definition _acquire_lock : M unit :=
  start <- gets now ;; _acquire_lock_poll 100 start.

Definition _release_lock (w : world) : world := set_lockdir false w.

Definition _atomic_write (data : document) : M unit :=
  modify (set_inbox (Some data)).

(** [json.load] of the mailbox file. *)
Definition load_inbox : M document :=
  fun w =>
    match inbox w with
    | Some d => ret d w
    | None =>
        raise FileNotFoundError
          ("[Errno 2] No such file or directory: '" +:+ INBOX w +:+ "'") w
    end.

(** ** add_mail.py *)

Definition required_fields : list string :=
  ["sender"; "subject"; "timestamp"; "body"].

Definition new_entry (new_id : Z) (mail_obj : gmap string jval)
  : gmap string jval :=
  setdefault "draftable" (JStr estr)
    (setdefault "action_items" (JList [])
       (setdefault "category" (JStr estr)
          (<["id" := JInt new_id]> mail_obj))).

Definition add_mail (mail_obj : gmap string jval) : M Z :=
  match find (fun k => negb (mhas k mail_obj)) required_fields with
  | Some k => raise ValueError ("Missing required field: " +:+ k)
  | None =>
      _acquire_lock ;;;
      try_finally
        (data <- gets (fun w => default (Doc 0 []) (inbox w)) ;;
         let new_id := counter data + 1 in
         let entry := new_entry new_id mail_obj in
         _atomic_write (Doc new_id (emails data ++ [entry])) ;;;
         ret new_id)
        _release_lock
  end.

(** ** update_mail.py *)

(** The comparison both [update_mail] and [delete_mail] make:
    [int(e.get("id", -1)) == int(mail_id)], and when either [int] raises,
    [e.get("id") == mail_id]. *)
Definition id_matches (mail_id : jval) (e : gmap string jval) : bool :=
  match py_int (mget_or "id" (JInt (-1)) e), py_int mail_id with
  | Some a, Some b => a =? b
  | _, _ => py_eq (mget "id" e) mail_id
  end.

(** The inner loop over [updates.items()]. *)
Definition apply_updates (updates e : gmap string jval) : gmap string jval :=
  map_fold (fun k v acc => if String.eqb k "id" then acc else <[k := v]> acc)
           e updates.

(** The outer loop: the first matching record is updated, and the loop
    breaks. *)
Fixpoint update_first (mail_id : jval) (updates : gmap string jval)
    (es : list (gmap string jval)) : option (list (gmap string jval)) :=
  match es with
  | [] => None
  | e :: es' =>
      if id_matches mail_id e
      then Some (apply_updates updates e :: es')
      else cons e <$> update_first mail_id updates es'
  end.

Definition update_mail (mail_id : jval) (updates : gmap string jval) : M bool :=
  exists_ <- gets (fun w => bool_decide (is_Some (inbox w))) ;;
  if negb exists_ then ret false
  else
    _acquire_lock ;;;
    try_finally
      (data <- load_inbox ;;
       match update_first mail_id updates (emails data) with
       | None => ret false
       | Some es => _atomic_write (Doc (counter data) es) ;;; ret true
       end)
      _release_lock.

(** ** delete_mail.py *)

(** [for idx, email in enumerate(new_emails, start=1): email["id"] = idx]. *)
Fixpoint renumber (idx : Z) (es : list (gmap string jval))
  : list (gmap string jval) :=
  match es with
  | [] => []
  | e :: es' => <["id" := JInt idx]> e :: renumber (idx + 1) es'
  end.

Definition delete_mail (mail_id : jval) : M bool :=
  exists_ <- gets (fun w => bool_decide (is_Some (inbox w))) ;;
  if negb exists_ then ret false
  else
    _acquire_lock ;;;
    try_finally
      (data <- load_inbox ;;
       let new_emails :=
         filter (fun e => id_matches mail_id e = false) (emails data) in
       if (length new_emails =? length (emails data))%nat
       then ret false
       else
         let new_emails := renumber 1 new_emails in
         _atomic_write (Doc (Z.of_nat (length new_emails)) new_emails) ;;;
         ret true)
      _release_lock.

(** ** Agent_Brain *)

Section Agents.

Context (rt : runtime).

(** [str(v)], as f-strings format a value. *)
Definition py_str (v : jval) : string :=
  match v with
  | JStr s => s
  | JNull => "None"
  | JBool true => "True"
  | JBool false => "False"
  | JInt n => pretty n
  | _ => py_repr rt v
  end.

(** [int(v)], with the exception it raises. *)
Definition int_or_raise (v : jval) : M Z :=
  match py_int v with
  | Some n => ret n
  | None =>
      match v with
      | JStr _ =>
          raise ValueError
            ("invalid literal for int() with base 10: " +:+ py_repr rt v)
      | _ =>
          raise TypeError
            ("int() argument must be a string, a bytes-like object or a "
             +:+ "real number, not '" +:+ py_type_name v +:+ "'")
      end
  end.

(** [prefix + v] for a [str] prefix. *)
Definition concat_str (v : jval) : M string :=
  match v with
  | JStr s => ret s
  | _ =>
      raise TypeError
        ("can only concatenate str (not " +:+ String dquote EmptyString
         +:+ py_type_name v +:+ String dquote EmptyString +:+ ") to str")
  end.

(** [v.strip()] for the value a gateway call returned. *)
Definition strip_or_raise (v : jval) : M string :=
  match v with
  | JStr s => ret (strip s)
  | _ =>
      raise AttributeError
        ("'" +:+ py_type_name v +:+ "' object has no attribute 'strip'")
  end.

(** *** connection_gateway.py *)

(** [resp.ok]. *)
Definition resp_ok (status : Z) : bool :=
  negb ((400 <=? status) && (status <? 600)).

Definition oget (k : string) (v : jval) : jval :=
  match v with
  | JObj o => default JNull (obj_get k o)
  | _ => JNull
  end.

(** The response parsing of [call]: the text found, or the message of the
    exception raised on the way. *)
Definition parse_response (data : jval) : string + jval :=
  let fallback := inr (JStr (json_dumps rt data)) in
  match data with
  | JObj _ =>
      let candidates :=
        py_or (py_or (oget "candidates" data) (oget "outputs" data))
              (oget "choices" data) in
      match candidates with
      | JList (first :: _) =>
          match first with
          | JObj _ =>
              let content := py_or (oget "content" first) first in
              match content with
              | JObj _ =>
                  match py_or (oget "parts" content) (JList []) with
                  | JList (JObj p0 :: _) =>
                      match obj_get "text" p0 with
                      | Some t => inr t
                      | None => fallback
                      end
                  | JList (JStr s :: _) => inr (JStr s)
                  | _ => fallback
                  end
              | _ =>
                  inl ("'" +:+ py_type_name content
                       +:+ "' object has no attribute 'get'")
              end
          | _ => fallback
          end
      | _ => fallback
      end
  | _ => fallback
  end.

(** What [call] makes of the outcome of its request: the exception it
    raises, or the value it returns. *)
Definition gateway_result (outcome : http_outcome) : exn + jval :=
  match outcome with
  | NetworkFailure msg =>
      inl (Exn GatewayError ("Network error calling LLM: " +:+ msg))
  | HttpResponse status body =>
      if (status =? 401) || (status =? 403)
      then inl (Exn GatewayError
                  ("Authentication error (status " +:+ pretty status
                   +:+ "). Check API key and billing."))
      else if status =? 429
      then inl (Exn GatewayError "Quota exceeded (429).")
      else if negb (resp_ok status)
      then
        let detail := match json_loads rt body with
                      | inr v => py_str v
                      | inl _ => prefix_of 1000 body
                      end in
        inl (Exn GatewayError
               ("API error " +:+ pretty status +:+ ": " +:+ detail))
      else
        match json_loads rt body with
        | inl msg =>
            inl (Exn GatewayError
                   ("Failed to parse API response: " +:+ msg))
        | inr data =>
            match parse_response data with
            | inl msg =>
                inl (Exn GatewayError
                       ("Failed to parse API response: " +:+ msg))
            | inr out => inr out
            end
        end
  end.

(** [call(prompt_text)]: one request per call. *)
Definition call (prompt_text : string) : M jval :=
  n <- gets gw_calls ;;
  outcome <- gets (fun w => llm w n prompt_text) ;;
  modify (set_gw_calls (S n)) ;;;
  match gateway_result outcome with
  | inl e => reraise e
  | inr out => ret out
  end.

(** *** The retry loop the three processors share

    [while attempts < 5: attempts += 1; try: body; except ConnectionError:
    sleep(1 * attempts); continue; except Exception: raise], and the
    [raise ConnectionError] after the loop. *)
Fixpoint retry_loop {A} (body : M A) (exhausted : nat -> option exn -> M A)
    (remaining attempts : nat) (last_err : option exn) : M A :=
  match remaining with
  | O => exhausted attempts last_err
  | S remaining' =>
      let attempts := S attempts in
      try_except body
        (fun e =>
           match ekind e with
           | GatewayError =>
               sleep (1000 * Z.of_nat attempts) ;;;
               retry_loop body exhausted remaining' attempts (Some e)
           | _ => reraise e
           end)
  end.

Definition str_of_last (last_err : option exn) : string :=
  match last_err with
  | Some e => emsg e
  | None => "None"
  end.

Definition with_gateway_retries {A} (body : M A)
    (message : nat -> string -> string) : M A :=
  retry_loop body
    (fun attempts last_err =>
       raise GatewayError (message attempts (str_of_last last_err)))
    5 0 None.

(** *** Prompt library *)

Definition PROMPT_LIB (w : world) : string :=
  MODULE_ROOT w +:+ "/Data_Storage_Vault/prompt_library.json".

Definition prompt_of (kind : string) (lib : list (string * string))
  : string :=
  match find (fun p => String.eqb (fst p) kind) lib with
  | Some p => snd p
  | None => estr
  end.

(** [_load_categorization_prompt] and [_load_action_prompt] open the file
    unguarded. *)
Definition load_prompt (kind : string) : M string :=
  fun w =>
    match prompt_library w with
    | Some lib => ret (prompt_of kind lib) w
    | None =>
        raise FileNotFoundError
          ("[Errno 2] No such file or directory: '" +:+ PROMPT_LIB w
           +:+ "'") w
    end.

(** [_load_auto_prompt] returns the empty string when the file cannot be
    read. *)
Definition _load_auto_prompt : M string :=
  gets (fun w => match prompt_library w with
                 | Some lib => prompt_of "auto_reply" lib
                 | None => estr
                 end).

(** *** smart_categorizer.py *)

(** [CATEGORY_RE]: the start, 1 to 100 characters out of the letters A
    to Z and a to z, the digits, blank, underscore, dash and ampersand,
    the end. *)
Definition CATEGORY_RE : Re.regex :=
  Re.seqs [Re.Bol false;
           Re.Rep true 1 (Some 100%nat)
             (fun c => is_upper c || is_lower c || is_digit c
                       || Re.one_of " _-&" c);
           Re.Eol false].

(** The body of the [try] after the gateway call. *)
Definition categorize_reply (mail_id : Z) (out : jval) : M string :=
  stripped <- strip_or_raise out ;;
  match first_line stripped with
  | None => raise IndexError "list index out of range"
  | Some line =>
      let cat := strip_char squote (strip_char dquote (strip line)) in
      if negb (Re.matches CATEGORY_RE (chars cat))
      then raise ValueError ("Invalid category format: '" +:+ cat +:+ "'")
      else
        update_mail (JInt mail_id) {["category" := JStr cat]} ;;;
        ret cat
  end.

Definition categorizer_attempt (mail_id : Z) (prompt : string) : M string :=
  out <- call prompt ;; categorize_reply mail_id out.

Definition categorizer_prompt (prompt_template body : string) : string :=
  prompt_template +:+ nl +:+ nl +:+ "EMAIL:" +:+ nl +:+ body
  +:+ nl +:+ nl +:+ "Return a single short category label.".

Definition categorizer_gave_up (attempts : nat) (last : string) : string :=
  "Failed to categorize after " +:+ pretty attempts
  +:+ " attempts. Last error: " +:+ last.

Definition smart_categorizer (mail_obj : gmap string jval) : M string :=
  mail_id <- int_or_raise (mget "id" mail_obj) ;;
  prompt_template <- load_prompt "categorization" ;;
  if String.eqb prompt_template estr
  then raise ValueError
         "No categorization prompt found in prompt_library.json"
  else
    body <- concat_str (mget_or "body" (JStr estr) mail_obj) ;;
    let prompt := categorizer_prompt prompt_template body in
    with_gateway_retries (categorizer_attempt mail_id prompt)
      categorizer_gave_up.

(** *** action_item_extractor.py *)

(** [JSON_LIKE_RE]: an opening brace or bracket, anything, a closing
    brace or bracket. *)
Definition JSON_LIKE_RE : Re.regex :=
  Re.seqs [Re.Chr (Re.one_of "{["); Re.star Re.any;
           Re.Chr (Re.one_of "}]")].

Definition _parse_json_from_text (out : jval) : M jval :=
  txt <- strip_or_raise out ;;
  match json_loads rt txt with
  | inr v => ret v
  | inl _ =>
      match Re.search JSON_LIKE_RE (chars txt) with
      | Some (b, e) =>
          match json_loads rt (text (slice b e (chars txt))) with
          | inr v => ret v
          | inl msg =>
              raise ValueError
                ("Found JSON-like text but failed to parse: " +:+ msg)
          end
      | None => raise ValueError "No JSON found in model output"
      end
  end.

Definition has_task (it : jval) : bool :=
  match it with
  | JObj o => bool_decide (is_Some (obj_get "task" o))
  | _ => false
  end.

(** The body of the [try] after the gateway call. *)
Definition extract_reply (mail_id : Z) (out : jval) : M (list jval) :=
  parsed <- _parse_json_from_text out ;;
  items <- match parsed with
           | JObj _ => ret [parsed]
           | JList l => ret l
           | _ => raise ValueError "Parsed JSON is neither object nor list."
           end ;;
  match find (fun it => negb (has_task it)) items with
  | Some it =>
      raise ValueError ("Invalid action item format: " +:+ py_str it)
  | None =>
      update_mail (JInt mail_id) {["action_items" := JList items]} ;;;
      ret items
  end.

Definition extractor_attempt (mail_id : Z) (prompt : string)
  : M (list jval) :=
  out <- call prompt ;; extract_reply mail_id out.

Definition extractor_prompt (prompt_template body : string) : string :=
  prompt_template +:+ nl +:+ nl +:+ "EMAIL:" +:+ nl +:+ body
  +:+ nl +:+ nl +:+ "Respond with JSON.".

Definition extractor_gave_up (attempts : nat) (last : string) : string :=
  "Failed after " +:+ pretty attempts +:+ " attempts. Last error: " +:+ last.

Definition action_item_extractor (mail_obj : gmap string jval)
  : M (list jval) :=
  mail_id <- int_or_raise (mget "id" mail_obj) ;;
  prompt_template <- load_prompt "action_extraction" ;;
  if String.eqb prompt_template estr
  then raise ValueError
         "No action_extraction prompt found in prompt_library.json"
  else
    body <- concat_str (mget_or "body" (JStr estr) mail_obj) ;;
    let prompt := extractor_prompt prompt_template body in
    with_gateway_retries (extractor_attempt mail_id prompt)
      extractor_gave_up.

End Agents.

Section Pipeline.

Context (rt : runtime).

(** *** AI_mail_drafter.py *)

Definition type_is_str (v : jval) : bool :=
  match v with JStr _ => true | _ => false end.

(** [_extract_text_from_call_output]. *)
Definition _extract_text_from_call_output (out : jval) : string :=
  match out with
  | JNull => estr
  | JObj _ =>
      let first_try :=
        match oget "candidates" out with
        | JList (first :: _) =>
            let from_parts :=
              match oget "content" first with
              | JObj _ as content =>
                  match oget "parts" content with
                  | JList (JObj p0 :: _) =>
                      match obj_get "text" p0 with
                      | Some (JStr txt) => Some txt
                      | _ => None
                      end
                  | _ => None
                  end
              | _ => None
              end in
            match from_parts with
            | Some txt => Some txt
            | None =>
                match first with
                | JObj _ =>
                    match find (fun k => type_is_str (oget k first))
                               ["text"; "output"; "message"] with
                    | Some k => Some (py_str rt (oget k first))
                    | None => None
                    end
                | _ => None
                end
            end
        | _ => None
        end in
      match first_try with
      | Some txt => txt
      | None =>
          match find (fun k => type_is_str (oget k out))
                     ["response"; "content"; "output"] with
          | Some k => py_str rt (oget k out)
          | None => json_dumps rt out
          end
      end
  | JStr s => s
  | _ => py_str rt out
  end.

(** [try: update_mail(...)  except Exception: traceback.print_exc()]. *)
Definition best_effort_update (mail_id : jval)
    (updates : gmap string jval) : M unit :=
  try_except (update_mail mail_id updates ;;; ret tt) (fun _ => ret tt).

(** The source mail is marked when it has an id. *)
Definition mark_not_draftable (mail_obj : gmap string jval) : M unit :=
  match mget "id" mail_obj with
  | JNull => ret tt
  | src_id => best_effort_update src_id {["draftable" := JInt 0]}
  end.

(** The inner loop around [add_mail]: [PermissionError] and [OSError] are
    retried after [0.2 * add_attempts] seconds, anything else is raised
    again.  The result is [new_id] and [last_err]. *)
Fixpoint add_mail_loop (draft_mail : gmap string jval)
    (remaining add_attempts : nat) (last_err : option exn)
  : M (option Z * option exn) :=
  match remaining with
  | O => ret (None, last_err)
  | S remaining' =>
      let add_attempts := S add_attempts in
      try_except
        (new_id <- add_mail draft_mail ;; ret (Some new_id, last_err))
        (fun e =>
           if is_OSError (ekind e)
           then sleep (200 * Z.of_nat add_attempts) ;;;
                add_mail_loop draft_mail remaining' add_attempts (Some e)
           else reraise e)
  end.

Definition new_draft_mail (mail_obj : gmap string jval)
    (sender_override : option string) (timestamp draft_text : string)
  : gmap string jval :=
  let sender := match sender_override with
                | Some s => if String.eqb s estr
                            then "ai.drafter@oceanai.local" else s
                | None => "ai.drafter@oceanai.local"
                end in
  <["sender" := JStr sender]>
  (<["subject" :=
       JStr ("Draft reply: "
             +:+ py_str rt (mget_or "subject" (JStr "(no subject)")
                                    mail_obj))]>
  (<["timestamp" := JStr timestamp]>
  (<["body" := JStr draft_text]>
  (<["category" := JStr "draft"]>
  (<["action_items" := JList []]>
  (<["draft_for" := mget "id" mail_obj]> ∅)))))).

(** The body of the [try] after the gateway call. *)
Definition draft_reply (mail_obj : gmap string jval)
    (sender_override : option string) (out : jval) : M string :=
  let raw := _extract_text_from_call_output out in
  let raw_draft := strip raw in
  if String.eqb raw_draft estr
  then raise ValueError "Empty draft from model."
  else if String.eqb raw_draft "INVALID"
  then mark_not_draftable mail_obj ;;; ret estr
  else
    let best_block := _select_best_option raw_draft in
    let draft_text := _clean_draft best_block in
    timestamp <- gets (fun w => strftime rt (now w)) ;;
    let draft_mail :=
      new_draft_mail mail_obj sender_override timestamp draft_text in
    added <- add_mail_loop draft_mail 5 0 None ;;
    match added with
    | (None, last_err) =>
        raise OSError
          ("Failed to write draft mail after retries. Last error: "
           +:+ str_of_last last_err)
    | (Some new_id, _) =>
        mark_not_draftable mail_obj ;;;
        best_effort_update (JInt new_id) {["category" := JStr "draft"]} ;;;
        ret draft_text
    end.

Definition drafter_attempt (mail_obj : gmap string jval)
    (sender_override : option string) (prompt : string) : M string :=
  out <- call rt prompt ;; draft_reply mail_obj sender_override out.

Definition drafter_prompt (prompt_template body : string) : string :=
  prompt_template +:+ nl +:+ nl +:+ "ORIGINAL EMAIL:" +:+ nl +:+ body
  +:+ nl +:+ nl +:+ "Produce a polite reply."
  +:+ nl +:+ nl
  +:+ "IMPORTANT: If this email is NOT suitable for drafting based "
  +:+ "on the prompt, respond with exactly the single word:"
  +:+ nl +:+ "INVALID".

Definition drafter_gave_up (attempts : nat) (last : string) : string :=
  "Failed to generate draft after " +:+ pretty attempts
  +:+ " attempts. Last error: " +:+ last.

Definition AI_mail_drafter (mail_obj : gmap string jval)
    (sender_override : option string) : M string :=
  if py_eq (mget "draftable" mail_obj) (JInt 0) then ret estr
  else
    prompt_template <- _load_auto_prompt ;;
    if String.eqb prompt_template estr
    then raise ValueError "No auto_reply prompt found in prompt_library.json"
    else
      body <- concat_str (mget_or "body" (JStr estr) mail_obj) ;;
      let prompt := drafter_prompt prompt_template body in
      with_gateway_retries
        (drafter_attempt mail_obj sender_override prompt)
        drafter_gave_up.

(** *** Backend/mail_func.py *)

Definition set_last_error (message : string) : M unit :=
  modify (fun w => set_error_record (Some (message, now w)) w).

Definition clear_last_error : M unit := modify (set_error_record None).

Definition get_last_error : M (option (string * Z)) := gets _last_error.

Definition _throttle : M unit :=
  t <- gets now ;;
  last <- gets _last_llm_call ;;
  min_gap <- gets MIN_SECONDS_BETWEEN_LLM_CALLS ;;
  let elapsed := t - last in
  (if elapsed <? min_gap then sleep (min_gap - elapsed) else ret tt) ;;;
  t' <- gets now ;;
  modify (set_last_llm_call t').

(** The poll loop of [_read_inbox]: as [_acquire_lock], but a timeout ends
    the wait without the lock. *)
Fixpoint _read_lock_poll (fuel : nat) (start : Z) : M bool :=
  fun w =>
    if lockdir w
    then
      if 5000 <=? now w - start then (inr false, w)
      else
        match fuel with
        | S fuel' => (sleep 50 ;;; _read_lock_poll fuel' start) w
        | O => (inr false, w)
        end
    else (inr true, set_lockdir true w).

Definition empty_inbox : document := Doc 0 [].

Definition _read_inbox : M document :=
  fun w =>
    match inbox w with
    | None => (inr empty_inbox, w)
    | Some d =>
        (start <- gets now ;;
         got_lock <- _read_lock_poll 100 start ;;
         (if got_lock then modify _release_lock else ret tt) ;;;
         ret d) w
    end.

Definition task_of (s : string) : jval := JObj [("task", JStr s)].

(** [_normalize_action_items].  [json.loads] of a text in brackets is a
    list or a dict, which ends the recursion; without that, Python stops
    at its recursion limit in the same [except] branch as [fuel = 0]. *)
Fixpoint normalize_action_items (fuel : nat) (raw : jval) : list jval :=
  if negb (py_truthy raw) then []
  else
    match raw with
    | JList l =>
        (fun it => match it with
                   | JObj _ => it
                   | _ => task_of (py_str rt it)
                   end) <$> l
    | JStr s =>
        let s := strip s in
        if (startswith "[" s && endswith "]" s)
           || (startswith "{" s && endswith "}" s)
        then
          match fuel, json_loads rt s with
          | S fuel', inr parsed => normalize_action_items fuel' parsed
          | _, _ => [task_of s]
          end
        else [task_of s]
    | _ => [task_of (py_str rt raw)]
    end.

Definition _normalize_action_items (raw : jval) : list jval :=
  normalize_action_items 1000 raw.

Definition quota_keywords : list string :=
  ["quota"; "quota exceeded"; "429"; "rate limit"; "token"; "billing";
   "quota_exceeded"; "resource_exhausted"; "exceeded"].

Definition _is_quota_or_token_error (exc : exn) : bool :=
  let txt := lower (emsg exc) in
  existsb (fun k => contains k txt) quota_keywords.

Definition _set_quota_backoff (message : string) : M unit :=
  t <- gets now ;;
  modify (fun w =>
            set_quota_backoff_until
              (Z.max (_quota_backoff_until w) (t + RETRY_BACKOFF_SECONDS w))
              w) ;;;
  set_last_error message ;;;
  last_log <- gets _last_quota_log ;;
  if 1000 <? t - last_log then modify (set_last_quota_log t) else ret tt.

Definition _clear_quota_backoff : M unit :=
  modify (set_quota_backoff_until 0) ;;;
  clear_last_error.

Definition _quota_backoff_active : M Z :=
  gets (fun w => Z.max 0 (_quota_backoff_until w - now w)).

(** [(m.get("category") or "").lower()]. *)
Definition category_lower (m : gmap string jval) : M string :=
  match py_or (mget "category" m) (JStr estr) with
  | JStr s => ret (lower s)
  | v =>
      raise AttributeError
        ("'" +:+ py_type_name v +:+ "' object has no attribute 'lower'")
  end.

Definition refers_to (mail_id : jval) (m : gmap string jval) : bool :=
  match py_or (mget "category" m) (JStr estr) with
  | JStr s =>
      String.eqb (lower s) "draft"
      && (py_eq (mget "draft_for" m) mail_id
          || py_eq (mget "in_reply_to" m) mail_id
          || py_eq (mget "source_id" m) mail_id)
  | _ => false
  end.

Definition _draft_exists_for (mail_id : jval) : M bool :=
  data <- _read_inbox ;;
  ret (existsb (refers_to mail_id) (emails data)).

(** The handler every stage has: [True] when [_process_one_mail] returns
    from it. *)
Definition stage_failed (e : exn) : M bool :=
  if _is_quota_or_token_error e
  then _set_quota_backoff (emsg e) ;;; ret true
  else ret false.

(** The four [try] blocks of [_process_one_mail], each with its body
    named. *)

(** 1) Categorize, only if the category is missing or empty. *)
Definition categorize_try (mail : gmap string jval) : M bool :=
  _throttle ;;; smart_categorizer rt mail ;;; ret false.

Definition categorize_stage (mail : gmap string jval) : M bool :=
  if negb (py_truthy (mget "category" mail))
  then try_except (categorize_try mail) stage_failed
  else ret false.

(** 2) Extract action items, only if there are none. *)
Definition extract_try (mail : gmap string jval) : M bool :=
  let current_ais := py_or (mget "action_items" mail) (JList []) in
  match _normalize_action_items current_ais with
  | [] => _throttle ;;; action_item_extractor rt mail ;;; ret false
  | _ => ret false
  end.

Definition extract_stage (mail : gmap string jval) : M bool :=
  try_except (extract_try mail) stage_failed.

(** 3) Draft a reply, unless a draft for the mail exists. *)
Definition draft_try (mail : gmap string jval) : M unit :=
  current_cat <- category_lower mail ;;
  if String.eqb current_cat "draft" then ret tt
  else
    exists_ <- _draft_exists_for (mget "id" mail) ;;
    if exists_ then ret tt
    else
      _throttle ;;;
      AI_mail_drafter mail None ;;;
      _clear_quota_backoff.

Definition draft_stage (mail : gmap string jval) : M unit :=
  try_except (draft_try mail) (fun e => stage_failed e ;;; ret tt).

(** The block for a mail that is a draft itself: extraction only. *)
Definition draft_extract_try (mail : gmap string jval) : M unit :=
  _throttle ;;; action_item_extractor rt mail ;;; ret tt.

Definition draft_extract_stage (mail : gmap string jval) : M unit :=
  try_except (draft_extract_try mail) (fun e => stage_failed e ;;; ret tt).

Definition _process_one_mail (mail : gmap string jval) : M unit :=
  left <- _quota_backoff_active ;;
  if 0 <? left then ret tt
  else
    cat <- category_lower mail ;;
    if String.eqb cat "draft" then draft_extract_stage mail
    else
      stop <- categorize_stage mail ;;
      if stop then ret tt
      else
        sleep 200 ;;;
        stop <- extract_stage mail ;;
        if stop then ret tt
        else
          sleep 200 ;;;
          draft_stage mail.

(** The [while idx < len(emails)] loop; each turn takes one unit of
    [fuel], and [None] is the answer when the fuel runs out. *)
Fixpoint process_loop (fuel : nat) (delay_between : Z)
    (emails_ : list (gmap string jval)) (idx : nat) : M (option unit) :=
  match fuel with
  | O => ret None
  | S fuel' =>
      if negb (idx <? length emails_)%nat then ret (Some tt)
      else
        backoff_left <- _quota_backoff_active ;;
        if 0 <? backoff_left
        then
          sleep (Z.min backoff_left 2000) ;;;
          data <- _read_inbox ;;
          process_loop fuel' delay_between (emails data) 0
        else
          try_except
            (match emails_ !! idx with
             | None => raise IndexError "list index out of range"
             | Some mail =>
                 current <- _read_inbox ;;
                 let fresh :=
                   find (id_matches (mget "id" mail)) (emails current) in
                 match fresh with
                 | None => ret tt
                 | Some fresh =>
                     _process_one_mail fresh ;;;
                     sleep delay_between
                 end
             end)
            (fun _ => ret tt) ;;;
          process_loop fuel' delay_between emails_ (S idx)
  end.

Definition process_mails_sequentially (fuel : nat) (delay_between : Z)
  : M (option unit) :=
  data <- _read_inbox ;;
  match emails data with
  | [] => ret (Some tt)
  | emails_ => process_loop fuel delay_between emails_ 0
  end.

End Pipeline.

(** ** Backend/load_mail.py: the prompt-change reset rules

    These functions look the mailbox up under four candidate paths,
    relative to the working directory: [files] holds what is stored under
    each, in the order of [_CANDIDATE_MAILBOX_PATHS]. *)

Definition _find_mailbox_path (files : list (option document)) : option nat :=
  fst <$> list_find is_Some files.

Definition _load_mailbox (files : list (option document)) : option document :=
  match _find_mailbox_path files with
  | Some i => default None (files !! i)
  | None => None
  end.

(** The file is written in place, at the path found or else at the first
    candidate. *)
Definition _save_mailbox (data : document) (files : list (option document))
  : list (option document) :=
  <[default 0%nat (_find_mailbox_path files) := Some data]> files.

(** [x not in (None, "")]. *)
Definition not_blank (v : jval) : bool :=
  negb (py_eq v JNull || py_eq v (JStr estr)).

Definition drop_category (m : gmap string jval) : gmap string jval :=
  if py_eq (mget "category" m) (JStr "draft") then m
  else if not_blank (mget "category" m) then <["category" := JStr estr]> m
  else m.

Definition category_dropped (m : gmap string jval) : bool :=
  negb (py_eq (mget "category" m) (JStr "draft"))
  && not_blank (mget "category" m).

Definition drop_categories_on_categorizer_prompt_change
    (files : list (option document)) : list (option document) :=
  match _load_mailbox files with
  | None => files
  | Some data =>
      if existsb category_dropped (emails data)
      then _save_mailbox (Doc (counter data) (drop_category <$> emails data))
                         files
      else files
  end.

Definition drop_action_items (m : gmap string jval) : gmap string jval :=
  if py_truthy (mget "action_items" m) then <["action_items" := JList []]> m
  else m.

Definition drop_action_items_on_action_prompt_change
    (files : list (option document)) : list (option document) :=
  match _load_mailbox files with
  | None => files
  | Some data =>
      if existsb (fun m => py_truthy (mget "action_items" m)) (emails data)
      then _save_mailbox
             (Doc (counter data) (drop_action_items <$> emails data)) files
      else files
  end.

Definition draftable_set (m : gmap string jval) : bool :=
  match m !! "draftable" with
  | Some v => negb (py_eq v (JStr estr))
  | None => false
  end.

Definition reset_draftable (m : gmap string jval) : gmap string jval :=
  if draftable_set m then <["draftable" := JStr estr]> m else m.

Definition reset_draftable_on_drafter_prompt_change
    (files : list (option document)) : list (option document) :=
  match _load_mailbox files with
  | None => files
  | Some data =>
      if existsb draftable_set (emails data)
      then _save_mailbox
             (Doc (counter data) (reset_draftable <$> emails data)) files
      else files
  end.

(** ** Sequences of store operations *)

Inductive store_op : Type :=
  | OpAdd (mail_obj : gmap string jval)
  | OpDelete (mail_id : jval).

(** The world after an operation, whether it returned or raised. *)
Definition run_op (op : store_op) (w : world) : world :=
  match op with
  | OpAdd mail_obj => snd (add_mail mail_obj w)
  | OpDelete mail_id => snd (delete_mail mail_id w)
  end.

Definition run_ops (ops : list store_op) (w : world) : world :=
  foldl (fun w op => run_op op w) w ops.

(** The ids of a document, in order. *)
Definition ids_of (d : document) : list (option jval) :=
  (fun e : gmap string jval => e !! "id") <$> emails d.

(** The ids [first], [first + 1], ... of [n] records. *)
Fixpoint ids_from (first : Z) (n : nat) : list (option jval) :=
  match n with
  | O => []
  | S n' => Some (JInt first) :: ids_from (first + 1) n'
  end.

(** The ids are 1..N and the counter is N. *)
Definition contiguous (d : document) : Prop :=
  ids_of d = ids_from 1 (length (emails d))
  /\ counter d = Z.of_nat (length (emails d)).

Definition mailbox_contiguous (w : world) : Prop :=
  match inbox w with
  | Some d => contiguous d
  | None => True
  end.

(** An empty mailbox: no file yet, or a file without records. *)
Definition empty_mailbox (w : world) : Prop :=
  inbox w = None \/ inbox w = Some (Doc 0 []).

(** ** Concrete worlds, for running the model *)

(** A runtime whose JSON reader knows the two texts the examples use. *)
Definition demo_runtime : runtime :=
  {| json_loads := fun s =>
       if String.eqb s "[]" then inr (JList [])
       else if String.eqb s "{}" then inr (JObj [])
       else inl "Expecting value: line 1 column 1 (char 0)"%string;
     json_dumps := fun _ => "{}"%string;
     py_repr := fun _ => "<object>"%string;
     strftime := fun t => pretty t |}.

(** A service that always answers with the given status and body. *)
Definition answering (status : Z) (body : string)
  : nat -> string -> http_outcome :=
  fun _ _ => HttpResponse status body.

Definition offline : nat -> string -> http_outcome :=
  fun _ _ => NetworkFailure "connection refused".

Definition demo_prompts : list (string * string) :=
  [("categorization", "Classify."); ("action_extraction", "Extract.");
   ("auto_reply", "Reply.")].

(** No mailbox file, the lock free, the default settings. *)
Definition fresh_world (service : nat -> string -> http_outcome) : world :=
  {| inbox := None; lockdir := false; prompt_library := Some demo_prompts;
     error_signal := None; now := 0; llm := service; gw_calls := 0;
     MODULE_ROOT := "/srv/app";
     MIN_SECONDS_BETWEEN_LLM_CALLS := 500; RETRY_BACKOFF_SECONDS := 60000;
     _last_llm_call := 0; _quota_backoff_until := 0; _last_quota_log := 0;
     _last_error := None |}.

Definition demo_mail : gmap string jval :=
  <["sender" := JStr "ann@example.com"]>
  (<["subject" := JStr "Lunch"]>
  (<["timestamp" := JStr "2025-11-20T12:00:00"]>
  (<["body" := JStr "Shall we meet at noon?"]> ∅))).

(** ** Vocabulary of the statements, and the worlds of the examples *)

Definition lock_timeout (w : world) : exn :=
  Exn TimeoutError
      ("Failed to acquire lock for " +:+ INBOX w +:+ " within 5.0s").

Definition missing_required (mail_obj : gmap string jval) : Prop :=
  exists k, k ∈ required_fields /\ mail_obj !! k = None.

Definition demo_inbox : document :=
  Doc 2 [<["id" := JInt 1]> demo_mail;
         <["id" := JInt 2]> (<["subject" := JStr "Dinner"]> demo_mail)].

Definition demo_world : world :=
  set_inbox (Some demo_inbox) (fresh_world offline).

Definition survivors (mail_id : jval) (es : list (gmap string jval))
  : list (gmap string jval) :=
  filter (fun e => id_matches mail_id e = false) es.

Definition demo_ops : list store_op :=
  [OpAdd demo_mail; OpAdd demo_mail; OpAdd demo_mail; OpDelete (JInt 2);
   OpAdd demo_mail; OpDelete (JInt 1)].

Definition fixture_block : string := "Bar baz long enough text here".

Definition fixture_long_block : string :=
  "Foo" +:+ nl +:+ "---" +:+ nl +:+ "Bar baz long enough text here!!"
        +:+ nl +:+ "---" +:+ nl +:+ "Qux".

Definition short_block (part : list ascii) : Prop :=
  (length (strip_by is_space part) < 30)%nat.

(** Texts with letters beyond ASCII: the letters e-acute and a-umlaut are
    one character each. *)
Definition e_acute : string := String "233"%char EmptyString.
Definition a_umlaut : string := String "228"%char EmptyString.

(** The first heading follows a letter, so that no word starts at it. *)
Definition fixture_accented_options : string :=
  e_acute +:+ "Option 1: Hello" +:+ nl +:+ "Option 2: Bye".

Definition fixture_accented_block : string :=
  "B" +:+ a_umlaut +:+ "r baz long enough text here".

Definition fixture_accented_separators : string :=
  "Foo" +:+ nl +:+ "---" +:+ nl +:+ fixture_accented_block
        +:+ nl +:+ "---" +:+ nl +:+ "Qux".

Definition work_mail : gmap string jval :=
  <["id" := JInt 1]> (<["category" := JStr "work"]> demo_mail).

Definition draft_mail_of_1 : gmap string jval :=
  <["id" := JInt 2]>
  (<["category" := JStr "draft"]> (<["draft_for" := JInt 1]> demo_mail)).

Definition demo_files : list (option document) :=
  [None; Some (Doc 2 [work_mail; draft_mail_of_1]); None; None].

(** The service, the request count and the configuration files are the
    same in both worlds. *)
Definition same_service (w w' : world) : Prop :=
  gw_calls w' = gw_calls w /\ llm w' = llm w
  /\ prompt_library w' = prompt_library w
  /\ MODULE_ROOT w' = MODULE_ROOT w.

(** A computation that sends no request and raises no [GatewayError]. *)
Definition offstage {A} (m : M A) : Prop :=
  forall w,
    same_service w (m w).2
    /\ (forall e, (m w).1 = inl e -> ekind e <> GatewayError).

(** The time slept after [j] failed attempts that follow [a] earlier
    ones: [1 * attempts] seconds after each. *)
Fixpoint slept (a j : nat) : Z :=
  match j with
  | O => 0
  | S j' => 1000 * Z.of_nat (S a) + slept (S a) j'
  end.

(** The world after [j] requests and the sleeps of [slept a j']. *)
Definition after_attempts (j : nat) (pause : Z) (w : world) : world :=
  set_now (now w + pause) (set_gw_calls (gw_calls w + j) w).

(** A computation that sends at most [n] requests. *)
Definition calls_within (n : nat) {A} (m : M A) : Prop :=
  forall w,
    (gw_calls w <= gw_calls (m w).2 <= gw_calls w + n)%nat
    /\ llm (m w).2 = llm w.

(** What the gateway makes of the [i]-th request from [w] on. *)
Definition nth_reply (rt : runtime) (w : world) (prompt : string) (i : nat)
  : exn + jval :=
  gateway_result rt (llm w (gw_calls w + i) prompt).

Definition fails (rt : runtime) (w : world) (prompt : string) (i : nat)
  : Prop :=
  exists e, nth_reply rt w prompt i = inl e.

Definition last_failure (rt : runtime) (w : world) (prompt : string)
    (j : nat) (last : option exn) : option exn :=
  match j with
  | O => last
  | S j' => match nth_reply rt w prompt j' with
            | inl e => Some e
            | inr _ => last
            end
  end.

(** The retry policy of a processor [run] whose attempts send [prompt] and
    hand the reply to [reply]: a reply to attempt [j + 1 <= 5], after [j]
    gateway failures, ends the loop with what [reply] does, success or
    exception; five gateway failures end it with a [GatewayError]. *)
Definition retry_policy (rt : runtime) {A} (run : M A) (prompt : string)
    (reply : jval -> M A) (gave_up : nat -> string -> string) (w : world)
  : Prop :=
  (forall j out,
     (j < 5)%nat ->
     (forall i, (i < j)%nat -> fails rt w prompt i) ->
     nth_reply rt w prompt j = inr out ->
     run w = reply out (after_attempts (S j) (slept 0 j) w))
  /\ ((forall i, (i < 5)%nat -> fails rt w prompt i) ->
      run w
      = (inl (Exn GatewayError
                (gave_up 5%nat
                   (str_of_last (last_failure rt w prompt 5 None)))),
         after_attempts 5 15000 w)).

Definition mail_1 : gmap string jval := <["id" := JInt 1]> demo_mail.

Definition invalid_reply : string :=
  "{" +:+ String dquote "candidates" +:+ String dquote ": ...}".

(** A runtime that reads [invalid_reply] as a response whose first
    candidate has the text [INVALID] followed by a newline. *)
Definition invalid_runtime : runtime :=
  {| json_loads := fun s =>
       if String.eqb s invalid_reply
       then inr (JObj [("candidates",
                        JList [JObj [("content",
                                      JObj [("parts",
                                             JList [JObj [("text",
                                                    JStr ("INVALID" +:+ nl))
                                                   ]])])]])])
       else inl "Expecting value: line 1 column 1 (char 0)"%string;
     json_dumps := json_dumps demo_runtime;
     py_repr := py_repr demo_runtime;
     strftime := strftime demo_runtime |}.

(** The service is down for two requests and then answers. *)
Definition recovering (body : string) : nat -> string -> http_outcome :=
  fun n _ => if (n <? 2)%nat then NetworkFailure "connection refused"
             else HttpResponse 200 body.

Definition recovering_world : world :=
  set_inbox (Some (Doc 1 [mail_1])) (fresh_world (recovering invalid_reply)).

(** Every run of [m] ends in a world related to the one it started in. *)
Definition keeps (R : world -> world -> Prop) {A} (m : M A) : Prop :=
  forall w, R w (m w).2.

(** The backoff deadline, the last-error record and its signal file, and
    the configured pause are the same in both worlds. *)
Definition same_backoff (w w' : world) : Prop :=
  _quota_backoff_until w' = _quota_backoff_until w
  /\ _last_error w' = _last_error w
  /\ error_signal w' = error_signal w
  /\ _last_quota_log w' = _last_quota_log w
  /\ RETRY_BACKOFF_SECONDS w' = RETRY_BACKOFF_SECONDS w.

(** [w'] is [w1] put into backoff for the exception [e]. *)
Definition backoff_set (e : exn) (w1 w' : world) : Prop :=
  _quota_backoff_until w'
  = Z.max (_quota_backoff_until w1) (now w1 + RETRY_BACKOFF_SECONDS w1)
  /\ now w' = now w1
  /\ RETRY_BACKOFF_SECONDS w' = RETRY_BACKOFF_SECONDS w1
  /\ now w' + RETRY_BACKOFF_SECONDS w' <= _quota_backoff_until w'
  /\ _last_error w' = Some (emsg e, now w1)
  /\ error_signal w' = Some (emsg e, now w1)
  /\ inbox w' = inbox w1
  /\ gw_calls w' = gw_calls w1.

(** The state [Normal], with no error on record. *)
Definition backoff_cleared (w' : world) : Prop :=
  _quota_backoff_until w' = 0
  /\ _last_error w' = None
  /\ error_signal w' = None.

(** How a stage ends when its [try] block raised [e] and left [w1]. *)
Definition handled {A} (outcome : (exn + A) * world) (e : exn) (w1 : world)
    (on_quota on_other : A) : Prop :=
  if _is_quota_or_token_error e
  then exists w', outcome = (inr on_quota, w') /\ backoff_set e w1 w'
  else outcome = (inr on_other, w1).

(** The service answers every request with status 429. *)
Definition quota_world : world :=
  set_inbox (Some (Doc 1 [mail_1])) (fresh_world (answering 429 "{}")).

(** The mail needs no stage: its category is a non-empty string that is
    not [draft] in any letter case, its action items are a non-empty
    list, and either its [draftable] is 0 or a draft in the mailbox [d]
    refers to it. *)
Definition settled (d : document) (m : gmap string jval) : Prop :=
  (exists s, m !! "category" = Some (JStr s) /\ s <> estr
             /\ lower s <> "draft")
  /\ (exists x l, m !! "action_items" = Some (JList (x :: l)))
  /\ (py_eq (mget "draftable" m) (JInt 0) = true
      \/ existsb (refers_to (mget "id" m)) (emails d) = true).

(** What the specification asks of a processed mail: a non-empty category,
    non-empty action items, and [draftable] set to something other than the
    empty string. *)
Definition processed (m : gmap string jval) : Prop :=
  (exists s, m !! "category" = Some (JStr s) /\ s <> estr)
  /\ (exists x l, m !! "action_items" = Some (JList (x :: l)))
  /\ (exists v, m !! "draftable" = Some v /\ v <> JStr estr).

(** The turns the loop waits out a backoff: slices of at most 2 s. *)
Definition backoff_turns (w : world) : nat :=
  Z.to_nat ((Z.max 0 (_quota_backoff_until w - now w) + 1999) / 2000).

(** Nothing but the clock moves. *)
Definition calm (w w' : world) : Prop :=
  inbox w' = inbox w /\ gw_calls w' = gw_calls w /\ now w <= now w'
  /\ _quota_backoff_until w' = _quota_backoff_until w.

(** A draft with action items and [draftable = 0], in a mailbox of its
    own; the service answers every request. *)
Definition drafts_only : document :=
  Doc 1 [<["id" := JInt 1]>
         (<["category" := JStr "draft"]>
         (<["action_items" := JList [JObj [("task", JStr "Confirm")]]]>
         (<["draftable" := JInt 0]> demo_mail)))].

Definition drafts_world : world :=
  set_inbox (Some drafts_only) (fresh_world (answering 200 "{}")).

(** A mail marked [draftable = 1] that has no draft yet; the service is
    down. *)
Definition undrafted : document :=
  Doc 1 [<["id" := JInt 1]>
         (<["category" := JStr "work"]>
         (<["action_items" := JList [JObj [("task", JStr "Confirm")]]]>
         (<["draftable" := JInt 1]> demo_mail)))].

Definition undrafted_world : world :=
  set_inbox (Some undrafted) (fresh_world offline).

(** A draft as [drafts_only] has it, with its category written with a
    capital letter. *)
Definition capital_draft : document :=
  Doc 1 [<["id" := JInt 1]>
         (<["category" := JStr "Draft"]>
         (<["action_items" := JList [JObj [("task", JStr "Confirm")]]]>
         (<["draftable" := JInt 0]> demo_mail)))].

Definition capital_draft_world : world :=
  set_inbox (Some capital_draft) (fresh_world (answering 200 "{}")).

(** The mail of [undrafted] and a draft that refers to it. *)
Definition drafted : document :=
  Doc 2 [<["id" := JInt 1]>
         (<["category" := JStr "work"]>
         (<["action_items" := JList [JObj [("task", JStr "Confirm")]]]>
         (<["draftable" := JInt 1]> demo_mail)));
         <["id" := JInt 2]>
         (<["category" := JStr "draft"]>
         (<["draft_for" := JInt 1]>
         (<["action_items" := JList [JObj [("task", JStr "Send")]]]>
         (<["draftable" := JInt 0]> demo_mail))))].

Definition drafted_world : world :=
  set_inbox (Some drafted) (fresh_world (answering 200 "{}")).

(** The mail of [undrafted], marked [draftable = 0] instead. *)
Definition settled_inbox : document :=
  Doc 1 [<["id" := JInt 1]>
         (<["category" := JStr "work"]>
         (<["action_items" := JList [JObj [("task", JStr "Confirm")]]]>
         (<["draftable" := JInt 0]> demo_mail)))].

Definition settled_world : world :=
  set_inbox (Some settled_inbox) (fresh_world (answering 200 "{}")).

(** One pass of the orchestrator, and the world it leaves. *)
Definition pass (w : world) : world :=
  (process_mails_sequentially demo_runtime 10 200 w).2.

(** * Properties *)

(** ** The lock and the world *)

Lemma release_acquired w :
  lockdir w = false -> _release_lock (set_lockdir true w) = w.
Proof. destruct w; simpl; intros ->; done. Qed.

Lemma release_written d w :
  lockdir w = false ->
  _release_lock (set_inbox d (set_lockdir true w)) = set_inbox d w.
Proof. destruct w; simpl; intros ->; done. Qed.

Lemma acquire_free w :
  lockdir w = false -> _acquire_lock w = (inr tt, set_lockdir true w).
Proof.
  intros H. unfold _acquire_lock, bind, gets. simpl. by rewrite H.
Qed.

Lemma acquire_poll_held n start w :
  lockdir w = true ->
  now w - start = 5000 - 50 * Z.of_nat n ->
  _acquire_lock_poll n start w
  = (inl (lock_timeout w), set_now (start + 5000) w).
Proof.
  revert w. induction n as [|n IH]; intros w Hl Ht; simpl; rewrite Hl.
  - assert (now w = start + 5000) as E by lia.
    replace (5000 <=? now w - start) with true
      by (symmetry; apply Z.leb_le; lia).
    unfold raise, lock_timeout. f_equal.
    destruct w; simpl in *; by subst.
  - replace (5000 <=? now w - start) with false
      by (symmetry; apply Z.leb_gt; lia).
    unfold bind, sleep, modify.
    rewrite IH; [ | done | simpl; lia ].
    done.
Qed.

Lemma acquire_held w :
  lockdir w = true ->
  _acquire_lock w = (inl (lock_timeout w), set_now (now w + 5000) w).
Proof.
  intros H. unfold _acquire_lock, bind, gets.
  apply acquire_poll_held; [done | lia].
Qed.

(** ** add_mail *)

Lemma find_missing_some mail_obj k :
  find (fun k => negb (mhas k mail_obj)) required_fields = Some k ->
  missing_required mail_obj.
Proof.
  intros H. apply find_some in H as [Hin Hk]. exists k. split.
  - by apply list_elem_of_In.
  - unfold mhas in Hk. apply negb_true_iff, bool_decide_eq_false in Hk.
    destruct (mail_obj !! k); [ exfalso; apply Hk; eauto | done ].
Qed.

Lemma find_missing_none mail_obj :
  find (fun k => negb (mhas k mail_obj)) required_fields = None ->
  ~ missing_required mail_obj.
Proof.
  intros H [k [Hin Hk]].
  apply list_elem_of_In in Hin.
  pose proof (find_none _ _ H k Hin) as Hn. simpl in Hn.
  unfold mhas in Hn. rewrite Hk in Hn.
  rewrite bool_decide_eq_false_2 in Hn; [ done | ].
  intros [? ?]; done.
Qed.

Lemma add_mail_rejected mail_obj w :
  missing_required mail_obj ->
  exists k, add_mail mail_obj w
            = (inl (Exn ValueError ("Missing required field: " +:+ k)), w).
Proof.
  intros Hm. unfold add_mail.
  destruct (find _ required_fields) as [k|] eqn:E.
  - by exists k.
  - by apply find_missing_none in E.
Qed.

Lemma add_mail_accepted mail_obj w :
  ~ missing_required mail_obj ->
  lockdir w = false ->
  let d := default (Doc 0 []) (inbox w) in
  add_mail mail_obj w
  = (inr (counter d + 1),
     set_inbox (Some (Doc (counter d + 1)
                          (emails d ++ [new_entry (counter d + 1) mail_obj])))
               w).
Proof.
  intros Hm Hl d. unfold add_mail.
  destruct (find _ required_fields) as [k|] eqn:E.
  { by apply find_missing_some in E. }
  unfold bind. rewrite acquire_free by done.
  unfold try_finally, bind, gets, _atomic_write, modify, ret. simpl.
  f_equal. by apply release_written.
Qed.

Lemma add_mail_contended mail_obj w :
  ~ missing_required mail_obj ->
  lockdir w = true ->
  add_mail mail_obj w = (inl (lock_timeout w), set_now (now w + 5000) w).
Proof.
  intros Hm Hl. unfold add_mail.
  destruct (find _ required_fields) as [k|] eqn:E.
  { by apply find_missing_some in E. }
  unfold bind. by rewrite acquire_held.
Qed.

Lemma setdefault_lookup k v (m : gmap string jval) k' :
  setdefault k v m !! k'
  = if decide (k = k')
    then Some (default v (m !! k))
    else m !! k'.
Proof.
  unfold setdefault. destruct (m !! k) eqn:E; case_decide; subst; simpl.
  - done.
  - done.
  - by rewrite lookup_insert_eq.
  - by rewrite lookup_insert_ne.
Qed.

Lemma new_entry_lookup new_id (mail_obj : gmap string jval) k :
  new_entry new_id mail_obj !! k
  = if decide (k = "id") then Some (JInt new_id)
    else if decide (k = "category")
         then Some (default (JStr estr) (mail_obj !! k))
    else if decide (k = "action_items")
         then Some (default (JList []) (mail_obj !! k))
    else if decide (k = "draftable")
         then Some (default (JStr estr) (mail_obj !! k))
    else mail_obj !! k.
Proof.
  unfold new_entry.
  repeat (rewrite setdefault_lookup; case_decide; subst; simpl);
    repeat (rewrite ?setdefault_lookup, ?lookup_insert_eq, ?lookup_insert_ne
              by done; repeat case_decide; subst; simpl; try done).
Qed.

Lemma demo_mail_complete : ~ missing_required demo_mail.
Proof.
  intros [k [Hin Hk]]. unfold required_fields in Hin.
  repeat (apply elem_of_cons in Hin as [-> | Hin]; [ by vm_compute in Hk | ]).
  by apply elem_of_nil in Hin.
Qed.

(** C5.  [add_mail] raises a [ValueError] exactly when one of [sender],
    [subject], [timestamp], [body] is absent from the record, and the world
    (the mailbox document with it) is then as before.  Otherwise, with the
    lock free, it returns [counter + 1], and the document gets that
    counter and one more record at its end: the caller's record with [id]
    set to the new id and with [category], [action_items] and [draftable]
    defaulted to the empty string, the empty list and the empty string
    only where the caller gave none. *)
Theorem add_mail_validates_then_appends
    (mail_obj : gmap string jval) (w : world) :
  let d := default (Doc 0 []) (inbox w) in
  let new_id := counter d + 1 in
  let entry := new_entry new_id mail_obj in
  ((exists msg, (add_mail mail_obj w).1 = inl (Exn ValueError msg))
   <-> missing_required mail_obj)
  /\ (missing_required mail_obj -> (add_mail mail_obj w).2 = w)
  /\ (~ missing_required mail_obj -> lockdir w = false ->
      add_mail mail_obj w
      = (inr new_id,
         set_inbox (Some (Doc new_id (emails d ++ [entry]))) w))
  /\ entry !! "id" = Some (JInt new_id)
  /\ entry !! "category" = Some (default (JStr estr) (mail_obj !! "category"))
  /\ entry !! "action_items"
     = Some (default (JList []) (mail_obj !! "action_items"))
  /\ entry !! "draftable"
     = Some (default (JStr estr) (mail_obj !! "draftable"))
  /\ (forall k, k ∉ ["id"; "category"; "action_items"; "draftable"] ->
      entry !! k = mail_obj !! k).
Proof.
  intros d new_id entry. repeat split.
  - intros [msg Hres].
    destruct (find (fun k => negb (mhas k mail_obj)) required_fields)
      as [k|] eqn:E.
    + by apply find_missing_some in E.
    + apply find_missing_none in E. exfalso.
      destruct (lockdir w) eqn:Hl.
      * rewrite add_mail_contended in Hres by done. simpl in Hres.
        unfold lock_timeout in Hres. congruence.
      * rewrite add_mail_accepted in Hres by done. simpl in Hres. congruence.
  - intros Hm. destruct (add_mail_rejected mail_obj w Hm) as [k ->].
    simpl. eauto.
  - intros Hm. destruct (add_mail_rejected mail_obj w Hm) as [k ->]. done.
  - intros Hm Hl. by apply add_mail_accepted.
  - unfold entry. by rewrite new_entry_lookup.
  - unfold entry. by rewrite new_entry_lookup.
  - unfold entry. by rewrite new_entry_lookup.
  - unfold entry. by rewrite new_entry_lookup.
  - intros k Hk. unfold entry. rewrite new_entry_lookup.
    repeat case_decide; subst; try done; exfalso; apply Hk; set_solver.
Qed.

Lemma add_mail_validates_then_appends_witness :
  add_mail demo_mail (fresh_world offline)
  = (inr 1,
     set_inbox (Some (Doc 1 [new_entry 1 demo_mail])) (fresh_world offline)).
Proof.
  apply (add_mail_validates_then_appends demo_mail (fresh_world offline)).
  - exact demo_mail_complete.
  - reflexivity.
Defined.

(** ** update_mail *)

Lemma apply_updates_lookup (updates e : gmap string jval) k :
  apply_updates updates e !! k
  = if decide (k = "id") then e !! k
    else match updates !! k with
         | Some v => Some v
         | None => e !! k
         end.
Proof.
  unfold apply_updates. revert k.
  apply (map_fold_weak_ind
           (fun r (m : gmap string jval) =>
              forall k, r !! k
                        = if decide (k = "id") then e !! k
                          else match m !! k with
                               | Some v => Some v
                               | None => e !! k
                               end)).
  - intros k. rewrite lookup_empty. by case_decide.
  - intros i x m r Hi IH k.
    destruct (String.eqb i "id") eqn:Ei.
    + apply String.eqb_eq in Ei. subst i. rewrite IH.
      case_decide; [done|]. by rewrite lookup_insert_ne.
    + apply String.eqb_neq in Ei.
      destruct (decide (i = k)) as [->|Hne].
      * rewrite !lookup_insert_eq. by rewrite decide_False.
      * rewrite !lookup_insert_ne by done. apply IH.
Qed.

Lemma update_first_no_match mail_id updates es :
  (forall e, e ∈ es -> id_matches mail_id e = false) ->
  update_first mail_id updates es = None.
Proof.
  induction es as [|e es IH]; intros H; simpl; [done|].
  rewrite (H e) by set_solver.
  rewrite IH; [done|]. intros e' He'. apply H. set_solver.
Qed.

Lemma update_first_match mail_id updates pre e post :
  (forall e', e' ∈ pre -> id_matches mail_id e' = false) ->
  id_matches mail_id e = true ->
  update_first mail_id updates (pre ++ e :: post)
  = Some (pre ++ apply_updates updates e :: post).
Proof.
  induction pre as [|p pre IH]; intros H He; simpl.
  - by rewrite He.
  - rewrite (H p) by set_solver.
    rewrite IH; [done| |done]. intros e' He'. apply H. set_solver.
Qed.

Lemma update_mail_no_file mail_id updates w :
  inbox w = None -> update_mail mail_id updates w = (inr false, w).
Proof.
  intros H. unfold update_mail, bind, gets. rewrite H. done.
Qed.

Lemma update_mail_locked mail_id updates w d :
  inbox w = Some d -> lockdir w = false ->
  update_mail mail_id updates w
  = match update_first mail_id updates (emails d) with
    | None => (inr false, w)
    | Some es => (inr true, set_inbox (Some (Doc (counter d) es)) w)
    end.
Proof.
  intros Hd Hl. unfold update_mail, bind, gets. rewrite Hd. simpl.
  rewrite acquire_free by done.
  unfold try_finally, bind, load_inbox. simpl. rewrite Hd.
  unfold ret. destruct (update_first mail_id updates (emails d)).
  - unfold _atomic_write, modify. simpl. f_equal. by apply release_written.
  - f_equal. by apply release_acquired.
Qed.

(** C8.  With the lock free, [update_mail] returns [False] and leaves the
    world as it is when no record matches the id (also when there is no
    mailbox file): it does not raise.  When a record matches, the first
    such record [e] is replaced by [e'], where [e'] has the [id] of [e],
    the given value for every other key of [updates], and the value of [e]
    for every key [updates] does not give; the records before and after
    it, and the counter, are as before. *)
Theorem update_mail_merges_given_fields
    (mail_id : jval) (updates : gmap string jval) (w : world) :
  lockdir w = false ->
  ((forall e, e ∈ match inbox w with Some d => emails d | None => [] end ->
              id_matches mail_id e = false) ->
   update_mail mail_id updates w = (inr false, w))
  /\ (forall d pre e post,
        inbox w = Some d ->
        emails d = pre ++ e :: post ->
        (forall e', e' ∈ pre -> id_matches mail_id e' = false) ->
        id_matches mail_id e = true ->
        exists e',
          update_mail mail_id updates w
          = (inr true,
             set_inbox (Some (Doc (counter d) (pre ++ e' :: post))) w)
          /\ e' !! "id" = e !! "id"
          /\ (forall k v, k <> "id" -> updates !! k = Some v ->
                          e' !! k = Some v)
          /\ (forall k, updates !! k = None -> e' !! k = e !! k)).
Proof.
  intros Hl. split.
  - intros Hno. destruct (inbox w) as [d|] eqn:Hd.
    + rewrite (update_mail_locked _ _ _ d) by done.
      by rewrite update_first_no_match.
    + by apply update_mail_no_file.
  - intros d pre e post Hd Hes Hpre He.
    exists (apply_updates updates e). repeat split.
    + rewrite (update_mail_locked _ _ _ d) by done.
      rewrite Hes. by rewrite update_first_match.
    + rewrite apply_updates_lookup. by rewrite decide_True.
    + intros k v Hk Hu. rewrite apply_updates_lookup.
      rewrite decide_False by done. by rewrite Hu.
    + intros k Hu. rewrite apply_updates_lookup. rewrite Hu.
      by case_decide.
Qed.

Lemma update_mail_merges_given_fields_witness :
  exists e',
    update_mail (JInt 2) {["subject" := JStr "Supper"; "id" := JInt 7]}
                demo_world
    = (inr true,
       set_inbox (Some (Doc 2 [<["id" := JInt 1]> demo_mail; e']))
                 demo_world)
    /\ e' !! "id" = Some (JInt 2).
Proof.
  destruct (update_mail_merges_given_fields
              (JInt 2) {["subject" := JStr "Supper"; "id" := JInt 7]}
              demo_world eq_refl) as [_ H].
  destruct (H demo_inbox [<["id" := JInt 1]> demo_mail]
              (<["id" := JInt 2]> (<["subject" := JStr "Dinner"]> demo_mail))
              [] eq_refl eq_refl) as [e' [H1 [H2 _]]].
  - intros e' He'. apply list_elem_of_singleton in He'. by subst e'.
  - reflexivity.
  - exists e'. split; [exact H1 | exact H2].
Defined.

(** ** delete_mail *)

Lemma delete_mail_no_file mail_id w :
  inbox w = None -> delete_mail mail_id w = (inr false, w).
Proof.
  intros H. unfold delete_mail, bind, gets. rewrite H. done.
Qed.

Lemma length_renumber idx es : length (renumber idx es) = length es.
Proof. revert idx. induction es; intros; simpl; auto. Qed.

Lemma delete_mail_locked mail_id w d :
  inbox w = Some d -> lockdir w = false ->
  delete_mail mail_id w
  = if (length (survivors mail_id (emails d)) =? length (emails d))%nat
    then (inr false, w)
    else (inr true,
          set_inbox
            (Some (Doc (Z.of_nat (length (survivors mail_id (emails d))))
                       (renumber 1 (survivors mail_id (emails d)))))
            w).
Proof.
  intros Hd Hl. unfold delete_mail, bind, gets. rewrite Hd. simpl.
  rewrite acquire_free by done.
  unfold try_finally, bind, load_inbox. simpl. rewrite Hd.
  unfold ret. fold (survivors mail_id (emails d)).
  destruct (_ =? _)%nat.
  - f_equal. by apply release_acquired.
  - unfold _atomic_write, modify. simpl. rewrite length_renumber.
    f_equal. by apply release_written.
Qed.

Lemma delete_mail_contended mail_id w d :
  inbox w = Some d -> lockdir w = true ->
  delete_mail mail_id w = (inl (lock_timeout w), set_now (now w + 5000) w).
Proof.
  intros Hd Hl. unfold delete_mail, bind, gets. rewrite Hd. simpl.
  by rewrite acquire_held.
Qed.

Lemma ids_renumber idx es :
  (fun e : gmap string jval => e !! "id") <$> renumber idx es
  = ids_from idx (length es).
Proof.
  revert idx. induction es as [|e es IH]; intros idx; simpl; [done|].
  rewrite lookup_insert_eq. by rewrite IH.
Qed.

Lemma renumber_lookup idx es i e :
  es !! i = Some e ->
  renumber idx es !! i = Some (<["id" := JInt (idx + Z.of_nat i)]> e).
Proof.
  revert idx i. induction es as [|e0 es IH]; intros idx i H; [done|].
  destruct i as [|i]; simpl in *.
  - inversion H. subst. do 3 f_equal. lia.
  - rewrite (IH (idx + 1) i H). do 3 f_equal. lia.
Qed.

Lemma ids_from_snoc first n :
  ids_from first (S n)
  = ids_from first n ++ [Some (JInt (first + Z.of_nat n))].
Proof.
  revert first. induction n as [|n IH]; intros first.
  - simpl. by rewrite Z.add_0_r.
  - change (ids_from first (S (S n)))
      with (Some (JInt first) :: ids_from (first + 1) (S n)).
    rewrite IH. simpl.
    replace (first + 1 + Z.of_nat n) with (first + Z.of_nat (S n)) by lia.
    done.
Qed.

Lemma contiguous_renumber es :
  contiguous (Doc (Z.of_nat (length es)) (renumber 1 es)).
Proof.
  split; simpl.
  - unfold ids_of. simpl. by rewrite ids_renumber, length_renumber.
  - by rewrite length_renumber.
Qed.

Lemma contiguous_append d mail_obj :
  contiguous d ->
  contiguous (Doc (counter d + 1)
                  (emails d ++ [new_entry (counter d + 1) mail_obj])).
Proof.
  intros [Hids Hc]. split; simpl.
  - unfold ids_of in *. simpl. rewrite fmap_app, Hids. simpl.
    rewrite new_entry_lookup, decide_True by done.
    rewrite length_app. simpl.
    replace (length (emails d) + 1)%nat with (S (length (emails d))) by lia.
    rewrite ids_from_snoc. do 4 f_equal. lia.
  - rewrite length_app. simpl. lia.
Qed.

Lemma add_mail_keeps_contiguous mail_obj w :
  mailbox_contiguous w -> mailbox_contiguous (add_mail mail_obj w).2.
Proof.
  intros Hinv.
  destruct (find (fun k => negb (mhas k mail_obj)) required_fields)
    as [k|] eqn:E.
  - apply find_missing_some in E.
    destruct (add_mail_rejected mail_obj w E) as [k' ->]. done.
  - apply find_missing_none in E. destruct (lockdir w) eqn:Hl.
    + rewrite add_mail_contended by done. done.
    + rewrite add_mail_accepted by done. unfold mailbox_contiguous in *.
      simpl. destruct (inbox w) as [d|]; simpl.
      * by apply contiguous_append.
      * split; [|done]. unfold ids_of. simpl.
        by rewrite new_entry_lookup, decide_True.
Qed.

Lemma delete_mail_keeps_contiguous mail_id w :
  mailbox_contiguous w -> mailbox_contiguous (delete_mail mail_id w).2.
Proof.
  intros Hinv. destruct (inbox w) as [d|] eqn:Hd.
  - destruct (lockdir w) eqn:Hl.
    + rewrite (delete_mail_contended _ _ d) by done.
      unfold mailbox_contiguous in *. simpl. by rewrite Hd in *.
    + rewrite (delete_mail_locked _ _ d) by done.
      destruct (_ =? _)%nat; [done|].
      unfold mailbox_contiguous. simpl. apply contiguous_renumber.
  - by rewrite delete_mail_no_file.
Qed.

Lemma run_ops_keep_contiguous ops w :
  mailbox_contiguous w -> mailbox_contiguous (run_ops ops w).
Proof.
  revert w. induction ops as [|op ops IH]; intros w Hinv; [done|].
  simpl. apply IH. destruct op; simpl.
  - by apply add_mail_keeps_contiguous.
  - by apply delete_mail_keeps_contiguous.
Qed.

Lemma empty_is_contiguous w : empty_mailbox w -> mailbox_contiguous w.
Proof.
  unfold mailbox_contiguous. intros [-> | ->]; [done|]. split; done.
Qed.

Lemma delete_mail_deleted mail_id w w' :
  delete_mail mail_id w = (inr true, w') ->
  exists d,
    inbox w = Some d /\ lockdir w = false
    /\ w' = set_inbox
              (Some (Doc (Z.of_nat (length (survivors mail_id (emails d))))
                         (renumber 1 (survivors mail_id (emails d)))))
              w.
Proof.
  intros H. destruct (inbox w) as [d|] eqn:Hd.
  - exists d. destruct (lockdir w) eqn:Hl.
    + rewrite (delete_mail_contended _ _ d) in H by done. discriminate.
    + rewrite (delete_mail_locked _ _ d) in H by done.
      destruct (_ =? _)%nat; [discriminate|]. by inversion H.
  - rewrite delete_mail_no_file in H by done. discriminate.
Qed.

Lemma add_mail_added mail_obj w new_id w' :
  add_mail mail_obj w = (inr new_id, w') ->
  let d := default (Doc 0 []) (inbox w) in
  new_id = counter d + 1
  /\ w' = set_inbox
            (Some (Doc new_id (emails d ++ [new_entry new_id mail_obj]))) w.
Proof.
  intros H d.
  destruct (find (fun k => negb (mhas k mail_obj)) required_fields)
    as [k|] eqn:E.
  - apply find_missing_some in E.
    destruct (add_mail_rejected mail_obj w E) as [k' Hk]. congruence.
  - apply find_missing_none in E. destruct (lockdir w) eqn:Hl.
    + rewrite add_mail_contended in H by done. discriminate.
    + rewrite add_mail_accepted in H by done. by inversion H.
Qed.

Lemma survivors_none_match mail_id es :
  (forall e, e ∈ es -> id_matches mail_id e = false) ->
  survivors mail_id es = es.
Proof.
  unfold survivors. induction es as [|e es IH]; intros H; [done|].
  rewrite filter_cons_True by (apply H; by left).
  f_equal. apply IH. intros e' He'. apply H. by right.
Qed.

(** C1.  Starting from an empty mailbox, after every sequence of
    [add_mail] and [delete_mail] calls the ids of the records are 1..N in
    order, N the number of records, and the counter is N.  With the lock
    free, [delete_mail] returns [True] as soon as a record matches the id
    and writes the records that do not match, fewer than before, in their
    order and with their other fields as they were, numbered from 1, with
    the counter at their number; when no record matches it returns
    [False] and writes nothing.  However it is called, a call of
    [delete_mail] that returns [True] has left such a document.  With the
    lock free, [add_mail] of a record with the required fields returns
    the counter plus 1 and appends the record under that id; a call of
    [add_mail] that returns an id leaves the counter at that id, which is
    also the id of the last record. *)
Theorem ids_stay_contiguous :
  (forall ops w, empty_mailbox w -> mailbox_contiguous (run_ops ops w))
  /\ (forall mail_id w d,
        inbox w = Some d -> lockdir w = false ->
        let kept := survivors mail_id (emails d) in
        kept `sublist_of` emails d
        /\ (forall e, e ∈ kept
                      <-> e ∈ emails d /\ id_matches mail_id e = false)
        /\ ((exists e, e ∈ emails d /\ id_matches mail_id e = true) ->
            delete_mail mail_id w
            = (inr true,
               set_inbox (Some (Doc (Z.of_nat (length kept))
                                    (renumber 1 kept))) w)
            /\ (length kept < length (emails d))%nat)
        /\ ((forall e, e ∈ emails d -> id_matches mail_id e = false) ->
            delete_mail mail_id w = (inr false, w))
        /\ length (renumber 1 kept) = length kept
        /\ (forall i e, kept !! i = Some e ->
              renumber 1 kept !! i
              = Some (<["id" := JInt (Z.of_nat i + 1)]> e)))
  /\ (forall mail_id w w',
        delete_mail mail_id w = (inr true, w') ->
        exists d d',
          inbox w = Some d /\ inbox w' = Some d'
          /\ contiguous d'
          /\ length (emails d') = length (survivors mail_id (emails d))
          /\ (forall i e, survivors mail_id (emails d) !! i = Some e ->
                emails d' !! i
                = Some (<["id" := JInt (Z.of_nat i + 1)]> e)))
  /\ (forall mail_obj w,
        ~ missing_required mail_obj -> lockdir w = false ->
        let d := default (Doc 0 []) (inbox w) in
        add_mail mail_obj w
        = (inr (counter d + 1),
           set_inbox
             (Some (Doc (counter d + 1)
                        (emails d ++ [new_entry (counter d + 1) mail_obj])))
             w))
  /\ (forall mail_obj w new_id w',
        add_mail mail_obj w = (inr new_id, w') ->
        exists d',
          inbox w' = Some d' /\ counter d' = new_id
          /\ (fun e : gmap string jval => e !! "id") <$> last (emails d')
             = Some (Some (JInt new_id))).
Proof.
  split; [|split; [|split; [|split]]].
  - intros ops w Hw. by apply run_ops_keep_contiguous, empty_is_contiguous.
  - intros mail_id w d Hd Hl kept.
    split; [apply sublist_filter|].
    split.
    { intros e. unfold kept, survivors. rewrite list_elem_of_filter. tauto. }
    split; [|split; [|split]].
    + intros (e & He & Hm).
      assert (length kept < length (emails d))%nat as Hlt.
      { apply (length_filter_lt _ _ e); [done|]. by rewrite Hm. }
      split; [|done]. rewrite (delete_mail_locked _ _ d) by done.
      fold kept.
      by rewrite (proj2 (Nat.eqb_neq _ _)) by lia.
    + intros Hno. rewrite (delete_mail_locked _ _ d) by done.
      rewrite survivors_none_match by done. by rewrite Nat.eqb_refl.
    + apply length_renumber.
    + intros i e Hi. rewrite (renumber_lookup 1 _ i e Hi).
      do 3 f_equal. lia.
  - intros mail_id w w' H.
    destruct (delete_mail_deleted _ _ _ H) as [d [Hd [Hl ->]]].
    eexists d, _. repeat split; try done; simpl.
    + unfold ids_of. simpl. by rewrite ids_renumber, length_renumber.
    + by rewrite length_renumber.
    + by rewrite length_renumber.
    + intros i e Hi. rewrite (renumber_lookup 1 _ i e Hi).
      do 3 f_equal. lia.
  - intros mail_obj w Hm Hl. by apply add_mail_accepted.
  - intros mail_obj w new_id w' H.
    destruct (add_mail_added _ _ _ _ H) as [Hid ->].
    eexists. repeat split; simpl.
    rewrite last_snoc. simpl. by rewrite new_entry_lookup, decide_True.
Qed.

Lemma ids_stay_contiguous_witness :
  mailbox_contiguous (run_ops demo_ops (fresh_world offline))
  /\ delete_mail (JInt 1) demo_world
     = (inr true,
        set_inbox
          (Some (Doc 1 [<["id" := JInt 1]>
                          (<["id" := JInt 2]>
                             (<["subject" := JStr "Dinner"]> demo_mail))]))
          demo_world).
Proof.
  split.
  - apply (proj1 ids_stay_contiguous demo_ops (fresh_world offline)).
    left. reflexivity.
  - apply (proj1 (proj2 ids_stay_contiguous) (JInt 1) demo_world demo_inbox
             eq_refl eq_refl).
    exists (<["id" := JInt 1]> demo_mail). split; [by left | reflexivity].
Defined.

(** C10.  When there is no mailbox file, [update_mail] and [delete_mail]
    return [False] for every id and leave the world as it is: no file is
    created, and the lock is not asked for, as they return at once also
    when another process holds it.  [add_mail] of a record with the
    required fields, the lock free, starts from a document with counter 0
    and no records: it writes a document with counter 1 whose only record
    has id 1, and returns 1. *)
Theorem missing_file_behaviour (w : world) :
  inbox w = None ->
  (forall mail_id updates, update_mail mail_id updates w = (inr false, w))
  /\ (forall mail_id, delete_mail mail_id w = (inr false, w))
  /\ (forall mail_obj,
        ~ missing_required mail_obj -> lockdir w = false ->
        add_mail mail_obj w
        = (inr 1, set_inbox (Some (Doc 1 [new_entry 1 mail_obj])) w)
        /\ new_entry 1 mail_obj !! "id" = Some (JInt 1)).
Proof.
  intros Hd. repeat split.
  - intros. by apply update_mail_no_file.
  - intros. by apply delete_mail_no_file.
  - rewrite add_mail_accepted by done. by rewrite Hd.
  - by rewrite new_entry_lookup, decide_True.
Qed.

Lemma missing_file_behaviour_witness :
  update_mail (JInt 1) {["subject" := JStr "x"]}
              (set_lockdir true (fresh_world offline))
  = (inr false, set_lockdir true (fresh_world offline))
  /\ delete_mail (JInt 1) (fresh_world offline)
     = (inr false, fresh_world offline)
  /\ add_mail demo_mail (fresh_world offline)
     = (inr 1,
        set_inbox (Some (Doc 1 [new_entry 1 demo_mail]))
                  (fresh_world offline)).
Proof.
  split; [|split].
  - apply (missing_file_behaviour (set_lockdir true (fresh_world offline))).
    reflexivity.
  - apply (missing_file_behaviour (fresh_world offline)). reflexivity.
  - apply (missing_file_behaviour (fresh_world offline) eq_refl).
    + exact demo_mail_complete.
    + reflexivity.
Defined.

(** ** Option selection of the drafter *)

Lemma find_first_long (pre : list (list ascii)) p post :
  Forall short_block pre ->
  (30 <= length (strip_by is_space p))%nat ->
  find (fun part => (30 <=? length (strip_by is_space part))%nat)
       (pre ++ p :: post) = Some p.
Proof.
  induction 1 as [|q pre Hq _ IH]; intros Hp; cbn [app find].
  - by rewrite (proj2 (Nat.leb_le _ _) Hp).
  - unfold short_block in Hq.
    rewrite (proj2 (Nat.leb_gt _ _) Hq). by apply IH.
Qed.

Lemma find_no_long (parts : list (list ascii)) :
  Forall short_block parts ->
  find (fun part => (30 <=? length (strip_by is_space part))%nat) parts
  = None.
Proof.
  induction 1 as [|q parts Hq _ IH]; cbn [find]; [done|].
  unfold short_block in Hq. by rewrite (proj2 (Nat.leb_gt _ _) Hq).
Qed.

(** C3, the fixture as the specification has it: the second block of the
    text is not what [_select_best_option] returns. *)
Lemma separator_fixture_selects_another_block :
  _select_best_option fixture_separators <> fixture_block.
Proof. vm_compute. discriminate. Qed.

(** C3, amended.  [_select_best_option] tries four heuristics in order and
    returns what the first applicable one selects: (a) [Option N]
    headings, from the first heading to just before the second, without
    the label; (b) blocks between separator lines, the first block of at
    least 30 characters after stripping, else the very first block; (c) a
    numbered list, from item 1 to just before item 2; (d) the whole text,
    stripped.  Lengths count characters, a letter with an accent being
    one, and blanks, digits and word boundaries are those of Python's
    [str] and [re].  On the first fixture it selects [Hello]; on the
    second it selects [Foo], the first block, as the block in the middle
    has 29 characters; with a middle block of 31 characters it selects
    that block.  The numbered fixture gives [Do the thing], and a plain
    reply is returned as it is.  A middle block of 29 characters one of
    which is a-umlaut is as short, and a heading right after the letter
    e-acute is no heading: the selection starts at the next one. *)
Theorem option_selection_precedence :
  (forall raw, raw <> estr ->
     let t := chars (replace crlf nl raw) in
     (forall b, select_by_option_heading t = Some b ->
                _select_best_option raw = b)
     /\ (forall b, select_by_option_heading t = None ->
                   select_by_separator t = Some b ->
                   _select_best_option raw = b)
     /\ (forall b, select_by_option_heading t = None ->
                   select_by_separator t = None ->
                   select_by_numbering t = Some b ->
                   _select_best_option raw = b)
     /\ (select_by_option_heading t = None ->
         select_by_separator t = None ->
         select_by_numbering t = None ->
         _select_best_option raw = text (strip_by is_space t)))
  /\ (forall t first more,
        Re.finditer option_heading_re t = first :: more ->
        select_by_option_heading t
        = Some (text (strip_by is_space
                        (Re.sub option_label_re []
                           (strip_by is_space
                              (slice first.1
                                     (match more with
                                      | second :: _ => second.1
                                      | [] => length t
                                      end) t))))))
  /\ (forall t,
        let parts := Re.split separator_re t in
        ((length parts <= 1)%nat -> select_by_separator t = None)
        /\ (forall pre p post,
              (1 < length parts)%nat ->
              parts = pre ++ p :: post ->
              Forall short_block pre ->
              (30 <= length (strip_by is_space p))%nat ->
              select_by_separator t = Some (text (strip_by is_space p)))
        /\ ((1 < length parts)%nat ->
            Forall short_block parts ->
            select_by_separator t
            = Some (text (strip_by is_space (hd [] parts)))))
  /\ _select_best_option fixture_options = "Hello"
  /\ _select_best_option fixture_separators = "Foo"
  /\ len fixture_block = 29%nat
  /\ _select_best_option fixture_long_block
     = "Bar baz long enough text here!!"
  /\ _select_best_option fixture_numbered = "Do the thing"
  /\ _select_best_option "Just a plain reply." = "Just a plain reply."
  /\ len fixture_accented_block = 29%nat
  /\ _select_best_option fixture_accented_separators = "Foo"
  /\ _select_best_option fixture_accented_options = "Bye".
Proof.
  split; [|split; [|split]];
    [| | |repeat (split; [by vm_compute|]); by vm_compute].
  - intros raw Hraw t. unfold _select_best_option.
    rewrite (proj2 (String.eqb_neq raw estr) Hraw). fold t.
    repeat split.
    + by intros b ->.
    + by intros b -> ->.
    + by intros b -> -> ->.
    + by intros -> -> ->.
  - intros t [s1 e1] more H. unfold select_by_option_heading. rewrite H.
    simpl. by destruct more as [|[s2 e2] more].
  - intros t parts. unfold select_by_separator. fold parts.
    split; [|split].
    + intros H. by rewrite (proj2 (Nat.ltb_ge _ _) H).
    + intros pre p post Hlen Hparts Hpre Hp.
      rewrite (proj2 (Nat.ltb_lt _ _) Hlen), Hparts.
      by rewrite find_first_long.
    + intros Hlen Hall.
      rewrite (proj2 (Nat.ltb_lt _ _) Hlen). by rewrite find_no_long.
Qed.

Lemma option_selection_precedence_witness :
  _select_best_option fixture_separators = "Foo".
Proof.
  assert (fixture_separators <> estr) as Hne by (vm_compute; discriminate).
  apply (proj1 (proj2 (proj1 option_selection_precedence
                          fixture_separators Hne))).
  - by vm_compute.
  - by vm_compute.
Defined.

(** ** The categorization reset rule *)

Lemma drop_category_idle (m : gmap string jval) :
  category_dropped m = false -> drop_category m = m.
Proof.
  unfold category_dropped, drop_category.
  destruct (py_eq (mget "category" m) (JStr "draft")); [done|].
  simpl. by intros ->.
Qed.

Lemma drop_category_all_idle (es : list (gmap string jval)) :
  existsb category_dropped es = false -> drop_category <$> es = es.
Proof.
  induction es as [|e es IH]; [done|]. cbn [existsb].
  intros H. apply orb_false_iff in H as [He Hes].
  by rewrite fmap_cons, drop_category_idle, IH.
Qed.

Lemma load_mailbox_found files d :
  _load_mailbox files = Some d ->
  exists i, _find_mailbox_path files = Some i /\ files !! i = Some (Some d).
Proof.
  unfold _load_mailbox. destruct (_find_mailbox_path files) as [i|]; [|done].
  intros H. exists i. split; [done|].
  destruct (files !! i) as [f|]; simpl in H; [by subst | done].
Qed.

Lemma drop_categories_result files i d :
  _find_mailbox_path files = Some i ->
  files !! i = Some (Some d) ->
  drop_categories_on_categorizer_prompt_change files
  = <[i := Some (Doc (counter d) (drop_category <$> emails d))]> files.
Proof.
  intros Hi Hd. unfold drop_categories_on_categorizer_prompt_change.
  unfold _load_mailbox, _save_mailbox. rewrite Hi, Hd. simpl.
  destruct (existsb category_dropped (emails d)) eqn:E; [done|].
  rewrite drop_category_all_idle by done.
  symmetry. apply list_insert_id. by destruct d.
Qed.

(** C9.  [drop_categories_on_categorizer_prompt_change] changes nothing
    when it finds no mailbox.  Otherwise it rewrites the mailbox it finds
    so that every mail whose category was neither [draft] nor absent,
    [None] or empty has the empty category; a mail whose category is
    [draft] is as it was; no other field of any mail changes, nor the
    counter, the number and order of the mails, or another file. *)
Theorem categorization_reset (files : list (option document)) :
  (_load_mailbox files = None ->
   drop_categories_on_categorizer_prompt_change files = files)
  /\ (forall d,
        _load_mailbox files = Some d ->
        exists i d',
          files !! i = Some (Some d)
          /\ drop_categories_on_categorizer_prompt_change files !! i
             = Some (Some d')
          /\ counter d' = counter d
          /\ length (emails d') = length (emails d)
          /\ (forall j m, emails d !! j = Some m ->
                exists m',
                  emails d' !! j = Some m'
                  /\ (py_eq (mget "category" m) (JStr "draft") = true ->
                      m' = m)
                  /\ (py_eq (mget "category" m) (JStr "draft") = false ->
                      not_blank (mget "category" m) = true ->
                      m' !! "category" = Some (JStr estr))
                  /\ (forall k, k <> "category" -> m' !! k = m !! k))
          /\ (forall j, j <> i ->
                drop_categories_on_categorizer_prompt_change files !! j
                = files !! j)).
Proof.
  split.
  { intros H. unfold drop_categories_on_categorizer_prompt_change.
    by rewrite H. }
  intros d Hload.
  destruct (load_mailbox_found files d Hload) as (i & Hi & Hd).
  rewrite (drop_categories_result files i d Hi Hd).
  exists i. eexists. split; [done|]. split; [|split; [|split; [|split]]].
  - apply list_lookup_insert_eq. by eapply lookup_lt_Some.
  - done.
  - simpl. by rewrite length_fmap.
  - intros j m Hj. exists (drop_category m). simpl.
    rewrite list_lookup_fmap, Hj. simpl. unfold drop_category.
    split; [done|]. split; [|split].
    + by intros ->.
    + intros -> ->. by rewrite lookup_insert_eq.
    + intros k Hk.
      destruct (py_eq (mget "category" m) (JStr "draft")); [done|].
      destruct (not_blank (mget "category" m)); [|done].
      by rewrite lookup_insert_ne.
  - intros j Hj. by rewrite list_lookup_insert_ne.
Qed.

(** On [demo_files] the work mail loses its category and the draft
    stays. *)
Lemma categorization_reset_witness :
  exists d',
    drop_categories_on_categorizer_prompt_change demo_files !! 1%nat
    = Some (Some d')
    /\ emails d'
       = [<["category" := JStr estr]> work_mail; draft_mail_of_1].
Proof.
  destruct (proj2 (categorization_reset demo_files)
              (Doc 2 [work_mail; draft_mail_of_1]) eq_refl)
    as (i & d' & Hi & H & _).
  assert (i = 1%nat) as ->
    by (destruct i as [|[|[|[|i]]]]; try discriminate; reflexivity).
  exists d'. split; [exact H|].
  vm_compute in H. inversion H. reflexivity.
Defined.

(** ** What a computation leaves alone *)

Lemma same_service_refl w : same_service w w.
Proof. by repeat split. Qed.

Lemma same_service_trans w1 w2 w3 :
  same_service w1 w2 -> same_service w2 w3 -> same_service w1 w3.
Proof.
  intros (a1 & b1 & c1 & d1) (a2 & b2 & c2 & d2).
  repeat split; congruence.
Qed.

Lemma offstage_ret {A} (a : A) : offstage (ret a).
Proof. intros w. split; [apply same_service_refl | done]. Qed.

Lemma offstage_raise {A} k msg :
  k <> GatewayError -> offstage (@raise A k msg).
Proof.
  intros Hk w. split; [apply same_service_refl |].
  simpl. intros e [= <-]. done.
Qed.

Lemma offstage_gets {A} (f : world -> A) : offstage (gets f).
Proof. intros w. split; [apply same_service_refl | done]. Qed.

Lemma offstage_modify (f : world -> world) :
  (forall w, same_service w (f w)) -> offstage (modify f).
Proof. intros Hf w. split; [apply Hf | done]. Qed.

Lemma offstage_bind {A B} (m : M A) (f : A -> M B) :
  offstage m -> (forall a, offstage (f a)) -> offstage (bind m f).
Proof.
  intros Hm Hf w. unfold bind. specialize (Hm w).
  destruct (m w) as [[e|a] w1]; simpl in *.
  - split; [apply Hm |]. intros e' [= <-]. by apply Hm.
  - specialize (Hf a w1). destruct Hf as [Hs He]. split; [|done].
    eapply same_service_trans; [apply Hm | done].
Qed.

Lemma offstage_try_except {A} (m : M A) (h : exn -> M A) :
  offstage m ->
  (forall e, ekind e <> GatewayError -> offstage (h e)) ->
  offstage (try_except m h).
Proof.
  intros Hm Hh w. unfold try_except. specialize (Hm w).
  destruct (m w) as [[e|a] w1]; simpl in *.
  - destruct Hm as [Hm He]. specialize (He e eq_refl).
    specialize (Hh e He w1). destruct Hh as [Hs He']. split; [|done].
    eapply same_service_trans; [apply Hm | done].
  - split; [apply Hm | done].
Qed.

Lemma offstage_try_finally {A} (m : M A) (c : world -> world) :
  offstage m -> (forall w, same_service w (c w)) ->
  offstage (try_finally m c).
Proof.
  intros Hm Hc w. unfold try_finally. specialize (Hm w).
  destruct (m w) as [r w1]; simpl in *. split; [|apply Hm].
  eapply same_service_trans; [apply Hm | apply Hc].
Qed.

Lemma offstage_sleep ms : offstage (sleep ms).
Proof. apply offstage_modify. intros w. by repeat split. Qed.

Lemma offstage_acquire_poll fuel start :
  offstage (_acquire_lock_poll fuel start).
Proof.
  induction fuel as [|fuel IH]; intros w; simpl;
    destruct (lockdir w); try (split; [by repeat split | done]);
    destruct (5000 <=? now w - start);
    try (split; [by repeat split | by intros e [= <-]]).
  exact (offstage_bind _ _ (offstage_sleep 50) (fun _ => IH) w).
Qed.

Lemma offstage_acquire : offstage _acquire_lock.
Proof.
  apply offstage_bind; [apply offstage_gets |].
  intros start. apply offstage_acquire_poll.
Qed.

Lemma offstage_atomic_write d : offstage (_atomic_write d).
Proof. apply offstage_modify. intros w. by repeat split. Qed.

Lemma offstage_load_inbox : offstage load_inbox.
Proof.
  intros w. unfold load_inbox. destruct (inbox w).
  - split; [apply same_service_refl | done].
  - split; [apply same_service_refl | by intros e [= <-]].
Qed.

Lemma same_service_release w : same_service w (_release_lock w).
Proof. by repeat split. Qed.

Lemma offstage_add_mail mail_obj : offstage (add_mail mail_obj).
Proof.
  unfold add_mail. destruct (find _ required_fields).
  - by apply offstage_raise.
  - apply offstage_bind; [apply offstage_acquire | intros _].
    apply offstage_try_finally; [| apply same_service_release].
    apply offstage_bind; [apply offstage_gets | intros data].
    apply offstage_bind; [apply offstage_atomic_write | intros _].
    apply offstage_ret.
Qed.

Lemma offstage_update_mail mail_id updates :
  offstage (update_mail mail_id updates).
Proof.
  unfold update_mail.
  apply offstage_bind; [apply offstage_gets | intros ex].
  destruct (negb ex); [apply offstage_ret |].
  apply offstage_bind; [apply offstage_acquire | intros _].
  apply offstage_try_finally; [| apply same_service_release].
  apply offstage_bind; [apply offstage_load_inbox | intros data].
  destruct (update_first _ _ _); [| apply offstage_ret].
  apply offstage_bind; [apply offstage_atomic_write | intros _].
  apply offstage_ret.
Qed.

(** ** The retry loop *)

Section Retry.

Context (rt : runtime).

Lemma gateway_result_kind outcome e :
  gateway_result rt outcome = inl e -> ekind e = GatewayError.
Proof.
  unfold gateway_result. destruct outcome as [msg|status body].
  - by intros [= <-].
  - repeat match goal with
           | |- context [if ?b then _ else _] => destruct b
           | |- context [match ?x with _ => _ end] => destruct x
           end; by intros [= <-].
Qed.

Lemma call_run prompt w :
  call rt prompt w
  = (nth_reply rt w prompt 0, set_gw_calls (S (gw_calls w)) w).
Proof.
  unfold call, bind, gets, modify, nth_reply. simpl.
  rewrite Nat.add_0_r.
  by destruct (gateway_result rt (llm w (gw_calls w) prompt)).
Qed.

Lemma nth_reply_after w prompt j pause i :
  nth_reply rt (after_attempts j pause w) prompt i
  = nth_reply rt w prompt (j + i).
Proof. unfold nth_reply. simpl. by rewrite Nat.add_assoc. Qed.

Section Loop.

Context {A : Type} (prompt : string) (k : jval -> M A)
        (exhausted : nat -> option exn -> M A).

Let attempt : M A := out <- call rt prompt ;; k out.

Lemma retry_failed r a last w e :
  nth_reply rt w prompt 0 = inl e ->
  retry_loop attempt exhausted (S r) a last w
  = retry_loop attempt exhausted r (S a) (Some e)
      (after_attempts 1 (1000 * Z.of_nat (S a)) w).
Proof.
  intros H. simpl. unfold try_except, attempt, bind at 1.
  rewrite call_run, H. rewrite (gateway_result_kind _ _ H).
  unfold bind, sleep, modify. simpl. f_equal.
  unfold after_attempts. simpl.
  rewrite Nat.add_1_r. f_equal; lia.
Qed.

Lemma retry_replied r a last w out :
  nth_reply rt w prompt 0 = inr out ->
  offstage (k out) ->
  retry_loop attempt exhausted (S r) a last w
  = k out (after_attempts 1 0 w).
Proof.
  intros H Hk. simpl. unfold try_except, attempt, bind at 1.
  rewrite call_run, H.
  replace (after_attempts 1 0 w) with (set_gw_calls (S (gw_calls w)) w).
  2:{ unfold after_attempts. rewrite Nat.add_1_r. destruct w; simpl.
      by rewrite Z.add_0_r. }
  specialize (Hk (set_gw_calls (S (gw_calls w)) w)).
  destruct (k out _) as [[e|x] w1]; [|done].
  destruct Hk as [_ He]. specialize (He e eq_refl).
  unfold reraise. by destruct (ekind e).
Qed.

Lemma after_attempts_twice i p j q w :
  after_attempts j q (after_attempts i p w)
  = after_attempts (i + j) (p + q) w.
Proof.
  unfold after_attempts. simpl. rewrite Nat.add_assoc.
  by rewrite Z.add_assoc.
Qed.

(** Every attempt fails at the gateway: the loop gives up after the
    last one. *)
Lemma retry_all_failed r a last w :
  (forall i, (i < r)%nat -> fails rt w prompt i) ->
  retry_loop attempt exhausted r a last w
  = exhausted (a + r)%nat (last_failure rt w prompt r last)
            (after_attempts r (slept a r) w).
Proof.
  revert a last w. induction r as [|r IH]; intros a last w Hf.
  - simpl. rewrite Nat.add_0_r. f_equal.
    unfold after_attempts. rewrite Nat.add_0_r, Z.add_0_r.
    by destruct w.
  - destruct (Hf 0%nat ltac:(lia)) as [e He].
    rewrite (retry_failed _ _ _ _ e He).
    rewrite IH.
    2:{ intros i Hi. unfold fails. rewrite nth_reply_after.
        apply (Hf (S i)). lia. }
    rewrite after_attempts_twice.
    replace (S a + r)%nat with (a + S r)%nat by lia.
    f_equal.
    destruct r as [|r]; simpl.
    + by rewrite He.
    + rewrite nth_reply_after. simpl.
      destruct (Hf (S r) ltac:(lia)) as [e' He']. by rewrite He'.
Qed.

(** The first [j] attempts fail at the gateway and the next one gets
    a reply: what the code does with the reply is the result. *)
Lemma retry_first_reply j r a last w out :
  (j < r)%nat ->
  (forall i, (i < j)%nat -> fails rt w prompt i) ->
  nth_reply rt w prompt j = inr out ->
  offstage (k out) ->
  retry_loop attempt exhausted r a last w
  = k out (after_attempts (S j) (slept a j) w).
Proof.
  revert r a last w. induction j as [|j IH]; intros r a last w Hr Hf Ho Hk.
  - destruct r as [|r]; [lia|].
    by rewrite (retry_replied _ _ _ _ out).
  - destruct r as [|r]; [lia|].
    destruct (Hf 0%nat ltac:(lia)) as [e He].
    rewrite (retry_failed _ _ _ _ e He).
    rewrite (IH r); try done; try lia.
    + rewrite after_attempts_twice. simpl. done.
    + intros i Hi. unfold fails. rewrite nth_reply_after.
      apply (Hf (S i)). lia.
    + by rewrite nth_reply_after.
Qed.

Lemma retry_calls_within r a last :
  (forall out, offstage (k out)) ->
  (forall n l w, same_service w (exhausted n l w).2) ->
  calls_within r (retry_loop attempt exhausted r a last).
Proof.
  intros Hk Hg. revert a last.
  induction r as [|r IH]; intros a last w.
  - simpl. destruct (Hg a last w) as (Hc & Hl & _).
    rewrite Hc, Hl. split; [lia | done].
  - destruct (nth_reply rt w prompt 0) as [e|out] eqn:E.
    + rewrite (retry_failed _ _ _ _ e E).
      destruct (IH (S a) (Some e)
                   (after_attempts 1 (1000 * Z.of_nat (S a)) w))
        as [Hc Hl].
      simpl in Hc, Hl. split; [lia | done].
    + rewrite (retry_replied _ _ _ _ out E (Hk out)).
      destruct (Hk out (after_attempts 1 0 w)) as [(Hc & Hl & _) _].
      simpl in Hc, Hl. rewrite Hc, Hl. split; [lia | done].
Qed.

End Loop.

End Retry.

(** ** The stage processors *)

Lemma offstage_calls_within {A} (m : M A) n :
  offstage m -> calls_within n m.
Proof.
  intros H w. destruct (H w) as [(Hc & Hl & _) _].
  rewrite Hc, Hl. split; [lia | done].
Qed.

Lemma calls_within_bind {A B} (m : M A) (f : A -> M B) n :
  offstage m -> (forall a, calls_within n (f a)) ->
  calls_within n (bind m f).
Proof.
  intros Hm Hf w. unfold bind.
  destruct (Hm w) as [(Hc & Hl & _) _].
  destruct (m w) as [[e|a] w1]; simpl in *.
  - rewrite Hc, Hl. split; [lia | done].
  - destruct (Hf a w1) as [Hc' Hl']. rewrite Hl', Hl. split; [lia | done].
Qed.

Section Processors.

Context (rt : runtime).

Lemma offstage_int_or_raise v : offstage (int_or_raise rt v).
Proof.
  unfold int_or_raise. destruct (py_int v); [apply offstage_ret|].
  destruct v; by apply offstage_raise.
Qed.

Lemma offstage_concat_str v : offstage (concat_str v).
Proof.
  unfold concat_str.
  destruct v; first [apply offstage_ret | by apply offstage_raise].
Qed.

Lemma offstage_strip_or_raise v : offstage (strip_or_raise v).
Proof.
  unfold strip_or_raise.
  destruct v; first [apply offstage_ret | by apply offstage_raise].
Qed.

Lemma offstage_load_prompt kind : offstage (load_prompt kind).
Proof.
  intros w. unfold load_prompt. destruct (prompt_library w).
  - split; [apply same_service_refl | done].
  - split; [apply same_service_refl | by intros e [= <-]].
Qed.

Lemma offstage_categorize_reply mail_id out :
  offstage (categorize_reply mail_id out).
Proof.
  unfold categorize_reply.
  apply offstage_bind; [apply offstage_strip_or_raise | intros stripped].
  destruct (first_line stripped); [| by apply offstage_raise].
  destruct (negb _); [by apply offstage_raise |].
  apply offstage_bind; [apply offstage_update_mail | intros _].
  apply offstage_ret.
Qed.

Lemma offstage_parse_json out : offstage (_parse_json_from_text rt out).
Proof.
  unfold _parse_json_from_text.
  apply offstage_bind; [apply offstage_strip_or_raise | intros txt].
  destruct (json_loads rt txt); [| apply offstage_ret].
  destruct (Re.search _ _) as [[b e]|]; [| by apply offstage_raise].
  destruct (json_loads rt _); [by apply offstage_raise | apply offstage_ret].
Qed.

Lemma offstage_extract_reply mail_id out :
  offstage (extract_reply rt mail_id out).
Proof.
  unfold extract_reply.
  apply offstage_bind; [apply offstage_parse_json | intros parsed].
  apply offstage_bind.
  { destruct parsed;
      first [apply offstage_ret | by apply offstage_raise]. }
  intros items. destruct (find _ items); [by apply offstage_raise |].
  apply offstage_bind; [apply offstage_update_mail | intros _].
  apply offstage_ret.
Qed.

Lemma offstage_best_effort_update mail_id updates :
  offstage (best_effort_update mail_id updates).
Proof.
  unfold best_effort_update. apply offstage_try_except.
  - apply offstage_bind; [apply offstage_update_mail | intros _].
    apply offstage_ret.
  - intros _ _. apply offstage_ret.
Qed.

Lemma offstage_mark_not_draftable mail_obj :
  offstage (mark_not_draftable mail_obj).
Proof.
  unfold mark_not_draftable.
  destruct (mget "id" mail_obj);
    first [apply offstage_ret | apply offstage_best_effort_update].
Qed.

Lemma offstage_reraise_not_gateway {A} e :
  ekind e <> GatewayError -> offstage (@reraise A e).
Proof.
  intros He w. split; [apply same_service_refl |].
  simpl. by intros e' [= <-].
Qed.

Lemma offstage_add_mail_loop draft_mail remaining add_attempts last_err :
  offstage (add_mail_loop draft_mail remaining add_attempts last_err).
Proof.
  revert add_attempts last_err.
  induction remaining as [|r IH]; intros a last; simpl.
  - apply offstage_ret.
  - apply offstage_try_except.
    + apply offstage_bind; [apply offstage_add_mail | intros new_id].
      apply offstage_ret.
    + intros e He. destruct (is_OSError (ekind e)).
      * apply offstage_bind; [apply offstage_sleep | intros _]. apply IH.
      * by apply offstage_reraise_not_gateway.
Qed.

Lemma offstage_draft_reply mail_obj sender_override out :
  offstage (draft_reply rt mail_obj sender_override out).
Proof.
  unfold draft_reply.
  destruct (String.eqb _ estr); [by apply offstage_raise |].
  destruct (String.eqb _ "INVALID").
  { apply offstage_bind; [apply offstage_mark_not_draftable | intros _].
    apply offstage_ret. }
  apply offstage_bind; [apply offstage_gets | intros timestamp].
  apply offstage_bind; [apply offstage_add_mail_loop | intros [new_id last]].
  destruct new_id as [new_id|]; [| by apply offstage_raise].
  apply offstage_bind; [apply offstage_mark_not_draftable | intros _].
  apply offstage_bind; [apply offstage_best_effort_update | intros _].
  apply offstage_ret.
Qed.

Lemma with_retries_calls_within {A} prompt (k : jval -> M A) message :
  (forall out, offstage (k out)) ->
  calls_within 5 (with_gateway_retries (out <- call rt prompt ;; k out)
                                       message).
Proof.
  intros Hk. unfold with_gateway_retries.
  apply retry_calls_within; [done |].
  intros n l w. apply same_service_refl.
Qed.

Lemma smart_categorizer_calls mail_obj :
  calls_within 5 (smart_categorizer rt mail_obj).
Proof.
  unfold smart_categorizer.
  apply calls_within_bind; [apply offstage_int_or_raise | intros mail_id].
  apply calls_within_bind; [apply offstage_load_prompt | intros tpl].
  destruct (String.eqb tpl estr).
  { apply offstage_calls_within. by apply offstage_raise. }
  apply calls_within_bind; [apply offstage_concat_str | intros body].
  apply with_retries_calls_within. apply offstage_categorize_reply.
Qed.

Lemma action_item_extractor_calls mail_obj :
  calls_within 5 (action_item_extractor rt mail_obj).
Proof.
  unfold action_item_extractor.
  apply calls_within_bind; [apply offstage_int_or_raise | intros mail_id].
  apply calls_within_bind; [apply offstage_load_prompt | intros tpl].
  destruct (String.eqb tpl estr).
  { apply offstage_calls_within. by apply offstage_raise. }
  apply calls_within_bind; [apply offstage_concat_str | intros body].
  apply with_retries_calls_within. apply offstage_extract_reply.
Qed.

Lemma AI_mail_drafter_calls mail_obj sender_override :
  calls_within 5 (AI_mail_drafter rt mail_obj sender_override).
Proof.
  unfold AI_mail_drafter.
  destruct (py_eq _ _).
  { apply offstage_calls_within, offstage_ret. }
  apply calls_within_bind; [apply offstage_gets | intros tpl].
  destruct (String.eqb tpl estr).
  { apply offstage_calls_within. by apply offstage_raise. }
  apply calls_within_bind; [apply offstage_concat_str | intros body].
  apply with_retries_calls_within. apply offstage_draft_reply.
Qed.

(** The processors, once their prompt is built, are the retry loop. *)

Lemma smart_categorizer_run mail_obj w mail_id lib body :
  py_int (mget "id" mail_obj) = Some mail_id ->
  prompt_library w = Some lib ->
  prompt_of "categorization" lib <> estr ->
  mget_or "body" (JStr estr) mail_obj = JStr body ->
  smart_categorizer rt mail_obj w
  = with_gateway_retries
      (categorizer_attempt rt mail_id
         (categorizer_prompt (prompt_of "categorization" lib) body))
      categorizer_gave_up w.
Proof.
  intros Hid Hlib Hp Hb. unfold smart_categorizer, int_or_raise.
  rewrite Hid. unfold bind at 1. unfold ret at 1.
  unfold bind at 1. unfold load_prompt. rewrite Hlib. unfold ret at 1.
  rewrite (proj2 (String.eqb_neq _ _) Hp).
  rewrite Hb. done.
Qed.

Lemma action_item_extractor_run mail_obj w mail_id lib body :
  py_int (mget "id" mail_obj) = Some mail_id ->
  prompt_library w = Some lib ->
  prompt_of "action_extraction" lib <> estr ->
  mget_or "body" (JStr estr) mail_obj = JStr body ->
  action_item_extractor rt mail_obj w
  = with_gateway_retries
      (extractor_attempt rt mail_id
         (extractor_prompt (prompt_of "action_extraction" lib) body))
      extractor_gave_up w.
Proof.
  intros Hid Hlib Hp Hb. unfold action_item_extractor, int_or_raise.
  rewrite Hid. unfold bind at 1. unfold ret at 1.
  unfold bind at 1. unfold load_prompt. rewrite Hlib. unfold ret at 1.
  rewrite (proj2 (String.eqb_neq _ _) Hp).
  rewrite Hb. done.
Qed.

Lemma AI_mail_drafter_run mail_obj sender_override w lib body :
  py_eq (mget "draftable" mail_obj) (JInt 0) = false ->
  prompt_library w = Some lib ->
  prompt_of "auto_reply" lib <> estr ->
  mget_or "body" (JStr estr) mail_obj = JStr body ->
  AI_mail_drafter rt mail_obj sender_override w
  = with_gateway_retries
      (drafter_attempt rt mail_obj sender_override
         (drafter_prompt (prompt_of "auto_reply" lib) body))
      drafter_gave_up w.
Proof.
  intros Hd Hlib Hp Hb. unfold AI_mail_drafter. rewrite Hd.
  unfold bind at 1. unfold _load_auto_prompt, gets. rewrite Hlib.
  rewrite (proj2 (String.eqb_neq _ _) Hp).
  rewrite Hb. done.
Qed.

End Processors.

Lemma slept_step a j :
  slept a (S j) = slept a j + 1000 * Z.of_nat (a + j + 1).
Proof.
  revert a. induction j as [|j IH]; intros a.
  - simpl. lia.
  - change (slept a (S (S j)))
      with (1000 * Z.of_nat (S a) + slept (S a) (S j)).
    rewrite IH.
    change (slept a (S j)) with (1000 * Z.of_nat (S a) + slept (S a) j).
    lia.
Qed.

Lemma with_retries_policy rt {A} prompt (reply : jval -> M A) gave_up w :
  (forall out, offstage (reply out)) ->
  retry_policy rt
    (with_gateway_retries (out <- call rt prompt ;; reply out) gave_up)
    prompt reply gave_up w.
Proof.
  intros Hk. split.
  - intros j out Hj Hf Ho. unfold with_gateway_retries.
    by apply retry_first_reply.
  - intros Hf. unfold with_gateway_retries.
    by rewrite retry_all_failed.
Qed.

(** C6.  Each of the three processors sends at most five requests.  Once
    its prompt is built, it runs attempts numbered from 1: an attempt
    whose request fails at the gateway is followed by a sleep of as many
    seconds as its number and, up to the fifth, by another attempt; what
    the processor does with a reply (parsing, validation, the store)
    sends no request and raises no [GatewayError], and its result or
    exception ends the processor at once; the gateway call itself raises
    nothing but [GatewayError]; after five gateway failures the processor
    raises a [GatewayError]. *)
Theorem stage_retry_policy (rt : runtime) (mail : gmap string jval)
    (sender_override : option string) (w : world) :
  (calls_within 5 (smart_categorizer rt mail)
   /\ calls_within 5 (action_item_extractor rt mail)
   /\ calls_within 5 (AI_mail_drafter rt mail sender_override))
  /\ ((forall mail_id out, offstage (categorize_reply mail_id out))
      /\ (forall mail_id out, offstage (extract_reply rt mail_id out))
      /\ (forall out, offstage (draft_reply rt mail sender_override out)))
  /\ (forall outcome e,
        gateway_result rt outcome = inl e -> ekind e = GatewayError)
  /\ (forall a j, slept a (S j) - slept a j = 1000 * Z.of_nat (a + j + 1))
  /\ (forall mail_id lib body,
        py_int (mget "id" mail) = Some mail_id ->
        prompt_library w = Some lib ->
        prompt_of "categorization" lib <> estr ->
        mget_or "body" (JStr estr) mail = JStr body ->
        retry_policy rt (smart_categorizer rt mail)
          (categorizer_prompt (prompt_of "categorization" lib) body)
          (categorize_reply mail_id) categorizer_gave_up w)
  /\ (forall mail_id lib body,
        py_int (mget "id" mail) = Some mail_id ->
        prompt_library w = Some lib ->
        prompt_of "action_extraction" lib <> estr ->
        mget_or "body" (JStr estr) mail = JStr body ->
        retry_policy rt (action_item_extractor rt mail)
          (extractor_prompt (prompt_of "action_extraction" lib) body)
          (extract_reply rt mail_id) extractor_gave_up w)
  /\ (forall lib body,
        py_eq (mget "draftable" mail) (JInt 0) = false ->
        prompt_library w = Some lib ->
        prompt_of "auto_reply" lib <> estr ->
        mget_or "body" (JStr estr) mail = JStr body ->
        retry_policy rt (AI_mail_drafter rt mail sender_override)
          (drafter_prompt (prompt_of "auto_reply" lib) body)
          (draft_reply rt mail sender_override) drafter_gave_up w).
Proof.
  split; [|split; [|split; [|split; [|split; [|split]]]]].
  - split; [|split].
    + apply smart_categorizer_calls.
    + apply action_item_extractor_calls.
    + apply AI_mail_drafter_calls.
  - split; [|split].
    + apply offstage_categorize_reply.
    + apply offstage_extract_reply.
    + apply offstage_draft_reply.
  - apply gateway_result_kind.
  - intros a j. rewrite slept_step. lia.
  - intros mail_id lib body Hid Hlib Hp Hb.
    pose proof (with_retries_policy rt
                  (categorizer_prompt (prompt_of "categorization" lib) body)
                  (categorize_reply mail_id) categorizer_gave_up w
                  (offstage_categorize_reply mail_id)) as [H1 H2].
    split.
    + intros j out Hj Hf Ho.
      rewrite (smart_categorizer_run rt mail w mail_id lib body) by done.
      by apply H1.
    + intros Hf.
      rewrite (smart_categorizer_run rt mail w mail_id lib body) by done.
      by apply H2.
  - intros mail_id lib body Hid Hlib Hp Hb.
    pose proof (with_retries_policy rt
                  (extractor_prompt (prompt_of "action_extraction" lib) body)
                  (extract_reply rt mail_id) extractor_gave_up w
                  (offstage_extract_reply rt mail_id)) as [H1 H2].
    split.
    + intros j out Hj Hf Ho.
      rewrite (action_item_extractor_run rt mail w mail_id lib body) by done.
      by apply H1.
    + intros Hf.
      rewrite (action_item_extractor_run rt mail w mail_id lib body) by done.
      by apply H2.
  - intros lib body Hd Hlib Hp Hb.
    pose proof (with_retries_policy rt
                  (drafter_prompt (prompt_of "auto_reply" lib) body)
                  (draft_reply rt mail sender_override) drafter_gave_up w
                  (offstage_draft_reply rt mail sender_override)) as [H1 H2].
    split.
    + intros j out Hj Hf Ho.
      rewrite (AI_mail_drafter_run rt mail sender_override w lib body)
        by done.
      by apply H1.
    + intros Hf.
      rewrite (AI_mail_drafter_run rt mail sender_override w lib body)
        by done.
      by apply H2.
Qed.

Lemma stage_retry_policy_witness :
  smart_categorizer demo_runtime mail_1 demo_world
  = (inl (Exn GatewayError
            ("Failed to categorize after 5 attempts. Last error: "
             +:+ "Network error calling LLM: connection refused")),
     after_attempts 5 15000 demo_world).
Proof.
  pose proof (stage_retry_policy demo_runtime mail_1 None demo_world)
    as (_ & _ & _ & _ & H & _).
  destruct (H 1 demo_prompts "Shall we meet at noon?") as [_ H5].
  - reflexivity.
  - reflexivity.
  - vm_compute. discriminate.
  - reflexivity.
  - apply H5. intros i _. eexists. reflexivity.
Defined.

(** ** The short-circuits of the drafter *)

Lemma update_mail_contended mail_id updates w d :
  inbox w = Some d -> lockdir w = true ->
  update_mail mail_id updates w
  = (inl (lock_timeout w), set_now (now w + 5000) w).
Proof.
  intros Hd Hl. unfold update_mail, bind, gets. rewrite Hd. simpl.
  by rewrite acquire_held.
Qed.

Lemma update_first_length mail_id updates es es' :
  update_first mail_id updates es = Some es' -> length es' = length es.
Proof.
  revert es'. induction es as [|e es IH]; intros es' H; [done|].
  simpl in H. destruct (id_matches mail_id e).
  - inversion H. done.
  - destruct (update_first mail_id updates es) as [es0|]; [|done].
    inversion H. simpl. f_equal. by apply IH.
Qed.

Lemma apply_updates_singleton k v (e : gmap string jval) :
  k <> "id" -> apply_updates {[k := v]} e = <[k := v]> e.
Proof.
  intros Hk. apply map_eq. intros k'. rewrite apply_updates_lookup.
  destruct (decide (k = k')) as [<-|Hne].
  - rewrite decide_False by done.
    by rewrite lookup_singleton_eq, lookup_insert_eq.
  - rewrite lookup_singleton_ne by done. rewrite lookup_insert_ne by done.
    by case_decide.
Qed.

Lemma mark_with_id (mail_obj : gmap string jval) :
  mget "id" mail_obj <> JNull ->
  mark_not_draftable mail_obj
  = best_effort_update (mget "id" mail_obj) {["draftable" := JInt 0]}.
Proof. unfold mark_not_draftable. by destruct (mget "id" mail_obj). Qed.

Lemma mark_without_id (mail_obj : gmap string jval) :
  mget "id" mail_obj = JNull -> mark_not_draftable mail_obj = ret tt.
Proof. unfold mark_not_draftable. by intros ->. Qed.

(** Marking the source never raises, adds no record, and with the lock
    free sets [draftable] of the record it finds. *)
Lemma mark_not_draftable_outcome (mail_obj : gmap string jval) w :
  exists w',
    mark_not_draftable mail_obj w = (inr tt, w')
    /\ gw_calls w' = gw_calls w
    /\ (inbox w = None -> inbox w' = None)
    /\ (forall d, inbox w = Some d ->
          exists d', inbox w' = Some d' /\ counter d' = counter d
                     /\ length (emails d') = length (emails d))
    /\ (forall d, inbox w = Some d -> lockdir w = true -> inbox w' = Some d)
    /\ (forall d pre e post,
          inbox w = Some d -> lockdir w = false ->
          mget "id" mail_obj <> JNull ->
          emails d = pre ++ e :: post ->
          (forall e', e' ∈ pre -> id_matches (mget "id" mail_obj) e' = false) ->
          id_matches (mget "id" mail_obj) e = true ->
          inbox w'
          = Some (Doc (counter d) (pre ++ <["draftable" := JInt 0]> e :: post))).
Proof.
  assert (mget "id" mail_obj = JNull \/ mget "id" mail_obj <> JNull)
    as [Hnull|Hid] by (destruct (mget "id" mail_obj); auto).
  { rewrite mark_without_id by done. exists w.
    repeat split; try done. intros d Hd. by exists d. }
  rewrite mark_with_id by done.
  unfold best_effort_update, try_except, bind.
  destruct (inbox w) as [d|] eqn:Hd.
  - destruct (lockdir w) eqn:Hl.
    + rewrite (update_mail_contended _ _ _ d) by done.
      eexists. split; [reflexivity|]. simpl. rewrite Hd.
      repeat split; try done. intros d0 [= <-]. by exists d.
    + rewrite (update_mail_locked _ _ _ d) by done.
      destruct (update_first _ _ (emails d)) as [es|] eqn:Hu.
      * eexists. split; [reflexivity|]. simpl.
        repeat split; try done.
        -- intros d0 [= <-]. eexists. repeat split.
           simpl. by eapply update_first_length.
        -- intros d0 pre e post [= <-] _ _ Hes Hpre He.
           rewrite Hes, update_first_match in Hu by done.
           inversion Hu. by rewrite apply_updates_singleton.
      * eexists. split; [reflexivity|]. rewrite Hd.
        repeat split; try done.
        -- intros d0 [= <-]. by exists d.
        -- intros d0 pre e post [= <-] _ _ Hes Hpre He.
           rewrite Hes, update_first_match in Hu by done. done.
  - rewrite update_mail_no_file by done. exists w.
    repeat split; try done.
Qed.

Lemma draft_reply_invalid rt mail_obj sender_override out :
  strip (_extract_text_from_call_output rt out) = "INVALID" ->
  draft_reply rt mail_obj sender_override out
  = (mark_not_draftable mail_obj ;;; ret estr).
Proof. intros H. unfold draft_reply. by rewrite H. Qed.

(** C7.  A mail whose [draftable] equals 0 makes [AI_mail_drafter] return
    the empty string with the world as it was: no request, no record.
    When the reply the drafter gets (after at most four gateway failures)
    is [INVALID] once stripped, the drafter returns the empty string: no
    record is added, the counter stays, and with the lock free the first
    record that matches the id of the mail gets [draftable = 0], all else
    equal; when the lock is held the mailbox stays as it is and the
    drafter still returns. *)
Theorem drafter_short_circuits (rt : runtime) (mail : gmap string jval)
    (sender_override : option string) (w : world) :
  (py_eq (mget "draftable" mail) (JInt 0) = true ->
   AI_mail_drafter rt mail sender_override w = (inr estr, w))
  /\ (forall lib body j out,
        py_eq (mget "draftable" mail) (JInt 0) = false ->
        prompt_library w = Some lib ->
        prompt_of "auto_reply" lib <> estr ->
        mget_or "body" (JStr estr) mail = JStr body ->
        (j < 5)%nat ->
        (forall i, (i < j)%nat ->
           fails rt w (drafter_prompt (prompt_of "auto_reply" lib) body) i) ->
        nth_reply rt w (drafter_prompt (prompt_of "auto_reply" lib) body) j
        = inr out ->
        strip (_extract_text_from_call_output rt out) = "INVALID" ->
        exists w',
          AI_mail_drafter rt mail sender_override w = (inr estr, w')
          /\ gw_calls w' = (gw_calls w + S j)%nat
          /\ (inbox w = None -> inbox w' = None)
          /\ (forall d, inbox w = Some d ->
                exists d', inbox w' = Some d' /\ counter d' = counter d
                           /\ length (emails d') = length (emails d))
          /\ (forall d, inbox w = Some d -> lockdir w = true ->
                inbox w' = Some d)
          /\ (forall d pre e post,
                inbox w = Some d -> lockdir w = false ->
                mget "id" mail <> JNull ->
                emails d = pre ++ e :: post ->
                (forall e', e' ∈ pre ->
                   id_matches (mget "id" mail) e' = false) ->
                id_matches (mget "id" mail) e = true ->
                inbox w'
                = Some (Doc (counter d)
                            (pre ++ <["draftable" := JInt 0]> e :: post)))).
Proof.
  split.
  - intros H. unfold AI_mail_drafter. by rewrite H.
  - intros lib body j out Hd Hlib Hp Hb Hj Hf Ho Hinv.
    rewrite (AI_mail_drafter_run rt mail sender_override w lib body) by done.
    unfold with_gateway_retries, drafter_attempt.
    rewrite (retry_first_reply rt _ _ _ j 5 0 None w out Hj Hf Ho
               (offstage_draft_reply rt mail sender_override out)).
    rewrite draft_reply_invalid by done.
    unfold bind.
    destruct (mark_not_draftable_outcome mail
                (after_attempts (S j) (slept 0 j) w))
      as (w' & -> & Hc & H1 & H2 & H3 & H4).
    exists w'. split; [done|]. simpl in *. repeat split; try done.
Qed.

Lemma drafter_short_circuits_witness :
  exists w',
    AI_mail_drafter invalid_runtime mail_1 None recovering_world
    = (inr estr, w')
    /\ gw_calls w' = 3%nat
    /\ inbox w' = Some (Doc 1 [<["draftable" := JInt 0]> mail_1]).
Proof.
  pose proof (drafter_short_circuits invalid_runtime mail_1 None
                recovering_world) as [_ H].
  destruct (H demo_prompts "Shall we meet at noon?" 2%nat
              (JStr ("INVALID" +:+ nl)))
    as (w' & Hrun & Hc & _ & _ & _ & Hmark).
  - reflexivity.
  - reflexivity.
  - vm_compute. discriminate.
  - reflexivity.
  - lia.
  - intros i Hi. destruct i as [|[|i]]; [eexists; reflexivity ..| lia].
  - reflexivity.
  - reflexivity.
  - exists w'. split; [exact Hrun|]. split; [exact Hc|].
    apply (Hmark (Doc 1 [mail_1]) [] mail_1 []); try reflexivity.
    + vm_compute. discriminate.
    + intros e' He'. by apply elem_of_nil in He'.
Defined.

(** ** Frames: what the store, the gateway and the processors keep *)

Section Frames.

Context (R : world -> world -> Prop).
Hypothesis R_refl : forall w, R w w.
Hypothesis R_trans : forall w1 w2 w3, R w1 w2 -> R w2 w3 -> R w1 w3.
Hypothesis R_inbox : forall d w, R w (set_inbox d w).
Hypothesis R_lockdir : forall b w, R w (set_lockdir b w).
Hypothesis R_now : forall t w, R w (set_now t w).
Hypothesis R_gw_calls : forall n w, R w (set_gw_calls n w).
Hypothesis R_last_llm_call : forall t w, R w (set_last_llm_call t w).

Lemma keeps_ret {A} (a : A) : keeps R (ret a).
Proof. intros w. apply R_refl. Qed.

Lemma keeps_raise {A} k msg : keeps R (@raise A k msg).
Proof. intros w. apply R_refl. Qed.

Lemma keeps_reraise {A} e : keeps R (@reraise A e).
Proof. intros w. apply R_refl. Qed.

Lemma keeps_gets {A} (f : world -> A) : keeps R (gets f).
Proof. intros w. apply R_refl. Qed.

Lemma keeps_modify (f : world -> world) :
  (forall w, R w (f w)) -> keeps R (modify f).
Proof. intros Hf w. apply Hf. Qed.

Lemma keeps_bind {A B} (m : M A) (f : A -> M B) :
  keeps R m -> (forall a, keeps R (f a)) -> keeps R (bind m f).
Proof.
  intros Hm Hf w. unfold bind. specialize (Hm w).
  destruct (m w) as [[e|a] w1]; simpl in *; [done|].
  eapply R_trans; [apply Hm | apply Hf].
Qed.

Lemma keeps_try_except {A} (m : M A) (h : exn -> M A) :
  keeps R m -> (forall e, keeps R (h e)) -> keeps R (try_except m h).
Proof.
  intros Hm Hh w. unfold try_except. specialize (Hm w).
  destruct (m w) as [[e|a] w1]; simpl in *; [|done].
  eapply R_trans; [apply Hm | apply Hh].
Qed.

Lemma keeps_try_finally {A} (m : M A) (c : world -> world) :
  keeps R m -> (forall w, R w (c w)) -> keeps R (try_finally m c).
Proof.
  intros Hm Hc w. unfold try_finally. specialize (Hm w).
  destruct (m w) as [r w1]; simpl in *.
  eapply R_trans; [apply Hm | apply Hc].
Qed.

Lemma keeps_sleep ms : keeps R (sleep ms).
Proof. apply keeps_modify. intros w. apply R_now. Qed.

Lemma keeps_acquire_poll fuel start :
  keeps R (_acquire_lock_poll fuel start).
Proof.
  induction fuel as [|fuel IH]; intros w; simpl;
    destruct (lockdir w); try apply R_lockdir;
    destruct (5000 <=? now w - start); try apply R_refl.
  exact (keeps_bind _ _ (keeps_sleep 50) (fun _ => IH) w).
Qed.

Lemma keeps_acquire : keeps R _acquire_lock.
Proof.
  apply keeps_bind; [apply keeps_gets | intros start].
  apply keeps_acquire_poll.
Qed.

Lemma keeps_load_inbox : keeps R load_inbox.
Proof. intros w. unfold load_inbox. destruct (inbox w); apply R_refl. Qed.

Lemma keeps_atomic_write d : keeps R (_atomic_write d).
Proof. apply keeps_modify. intros w. apply R_inbox. Qed.

Lemma keeps_add_mail mail_obj : keeps R (add_mail mail_obj).
Proof.
  unfold add_mail. destruct (find _ required_fields).
  - apply keeps_raise.
  - apply keeps_bind; [apply keeps_acquire | intros _].
    apply keeps_try_finally; [| intros w; apply R_lockdir].
    apply keeps_bind; [apply keeps_gets | intros data].
    apply keeps_bind; [apply keeps_atomic_write | intros _].
    apply keeps_ret.
Qed.

Lemma keeps_update_mail mail_id updates :
  keeps R (update_mail mail_id updates).
Proof.
  unfold update_mail.
  apply keeps_bind; [apply keeps_gets | intros ex].
  destruct (negb ex); [apply keeps_ret |].
  apply keeps_bind; [apply keeps_acquire | intros _].
  apply keeps_try_finally; [| intros w; apply R_lockdir].
  apply keeps_bind; [apply keeps_load_inbox | intros data].
  destruct (update_first _ _ _); [| apply keeps_ret].
  apply keeps_bind; [apply keeps_atomic_write | intros _].
  apply keeps_ret.
Qed.

Context (rt : runtime).

Lemma keeps_call prompt : keeps R (call rt prompt).
Proof.
  unfold call.
  apply keeps_bind; [apply keeps_gets | intros n].
  apply keeps_bind; [apply keeps_gets | intros outcome].
  apply keeps_bind; [apply keeps_modify; apply R_gw_calls | intros _].
  destruct (gateway_result rt outcome);
    [apply keeps_reraise | apply keeps_ret].
Qed.

Lemma keeps_retry_loop {A} (body : M A) exhausted r a last :
  keeps R body -> (forall n l, keeps R (exhausted n l)) ->
  keeps R (retry_loop body exhausted r a last).
Proof.
  intros Hb Hg. revert a last.
  induction r as [|r IH]; intros a last; simpl; [apply Hg|].
  apply keeps_try_except; [done|]. intros e.
  destruct (ekind e); try apply keeps_reraise.
  apply keeps_bind; [apply keeps_sleep | intros _]. apply IH.
Qed.

Lemma keeps_with_retries {A} (body : M A) message :
  keeps R body -> keeps R (with_gateway_retries body message).
Proof.
  intros Hb. apply keeps_retry_loop; [done|].
  intros n l. apply keeps_raise.
Qed.

Lemma keeps_int_or_raise v : keeps R (int_or_raise rt v).
Proof.
  unfold int_or_raise. destruct (py_int v); [apply keeps_ret|].
  destruct v; apply keeps_raise.
Qed.

Lemma keeps_concat_str v : keeps R (concat_str v).
Proof.
  unfold concat_str. destruct v; first [apply keeps_ret | apply keeps_raise].
Qed.

Lemma keeps_strip_or_raise v : keeps R (strip_or_raise v).
Proof.
  unfold strip_or_raise.
  destruct v; first [apply keeps_ret | apply keeps_raise].
Qed.

Lemma keeps_load_prompt kind : keeps R (load_prompt kind).
Proof.
  intros w. unfold load_prompt. destruct (prompt_library w); apply R_refl.
Qed.

Lemma keeps_smart_categorizer mail_obj :
  keeps R (smart_categorizer rt mail_obj).
Proof.
  unfold smart_categorizer.
  apply keeps_bind; [apply keeps_int_or_raise | intros mail_id].
  apply keeps_bind; [apply keeps_load_prompt | intros tpl].
  destruct (String.eqb tpl estr); [apply keeps_raise|].
  apply keeps_bind; [apply keeps_concat_str | intros body].
  apply keeps_with_retries. unfold categorizer_attempt.
  apply keeps_bind; [apply keeps_call | intros out].
  unfold categorize_reply.
  apply keeps_bind; [apply keeps_strip_or_raise | intros stripped].
  destruct (first_line stripped); [| apply keeps_raise].
  destruct (negb _); [apply keeps_raise |].
  apply keeps_bind; [apply keeps_update_mail | intros _].
  apply keeps_ret.
Qed.

Lemma keeps_action_item_extractor mail_obj :
  keeps R (action_item_extractor rt mail_obj).
Proof.
  unfold action_item_extractor.
  apply keeps_bind; [apply keeps_int_or_raise | intros mail_id].
  apply keeps_bind; [apply keeps_load_prompt | intros tpl].
  destruct (String.eqb tpl estr); [apply keeps_raise|].
  apply keeps_bind; [apply keeps_concat_str | intros body].
  apply keeps_with_retries. unfold extractor_attempt.
  apply keeps_bind; [apply keeps_call | intros out].
  unfold extract_reply.
  apply keeps_bind.
  { unfold _parse_json_from_text.
    apply keeps_bind; [apply keeps_strip_or_raise | intros txt].
    destruct (json_loads rt txt); [| apply keeps_ret].
    destruct (Re.search _ _) as [[b e]|]; [| apply keeps_raise].
    destruct (json_loads rt _); [apply keeps_raise | apply keeps_ret]. }
  intros parsed. apply keeps_bind.
  { destruct parsed; first [apply keeps_ret | apply keeps_raise]. }
  intros items. destruct (find _ items); [apply keeps_raise |].
  apply keeps_bind; [apply keeps_update_mail | intros _].
  apply keeps_ret.
Qed.

Lemma keeps_best_effort_update mail_id updates :
  keeps R (best_effort_update mail_id updates).
Proof.
  unfold best_effort_update. apply keeps_try_except.
  - apply keeps_bind; [apply keeps_update_mail | intros _].
    apply keeps_ret.
  - intros _. apply keeps_ret.
Qed.

Lemma keeps_mark_not_draftable mail_obj :
  keeps R (mark_not_draftable mail_obj).
Proof.
  unfold mark_not_draftable.
  destruct (mget "id" mail_obj);
    first [apply keeps_ret | apply keeps_best_effort_update].
Qed.

Lemma keeps_add_mail_loop draft_mail remaining add_attempts last_err :
  keeps R (add_mail_loop draft_mail remaining add_attempts last_err).
Proof.
  revert add_attempts last_err.
  induction remaining as [|r IH]; intros a last; simpl.
  - apply keeps_ret.
  - apply keeps_try_except.
    + apply keeps_bind; [apply keeps_add_mail | intros new_id].
      apply keeps_ret.
    + intros e. destruct (is_OSError (ekind e)).
      * apply keeps_bind; [apply keeps_sleep | intros _]. apply IH.
      * apply keeps_reraise.
Qed.

Lemma keeps_AI_mail_drafter mail_obj sender_override :
  keeps R (AI_mail_drafter rt mail_obj sender_override).
Proof.
  unfold AI_mail_drafter. destruct (py_eq _ _); [apply keeps_ret|].
  apply keeps_bind; [apply keeps_gets | intros tpl].
  destruct (String.eqb tpl estr); [apply keeps_raise|].
  apply keeps_bind; [apply keeps_concat_str | intros body].
  apply keeps_with_retries. unfold drafter_attempt.
  apply keeps_bind; [apply keeps_call | intros out].
  unfold draft_reply.
  destruct (String.eqb _ estr); [apply keeps_raise |].
  destruct (String.eqb _ "INVALID").
  { apply keeps_bind; [apply keeps_mark_not_draftable | intros _].
    apply keeps_ret. }
  apply keeps_bind; [apply keeps_gets | intros timestamp].
  apply keeps_bind; [apply keeps_add_mail_loop | intros [new_id last]].
  destruct new_id as [new_id|]; [| apply keeps_raise].
  apply keeps_bind; [apply keeps_mark_not_draftable | intros _].
  apply keeps_bind; [apply keeps_best_effort_update | intros _].
  apply keeps_ret.
Qed.

Lemma keeps_throttle : keeps R _throttle.
Proof.
  unfold _throttle.
  apply keeps_bind; [apply keeps_gets | intros t].
  apply keeps_bind; [apply keeps_gets | intros last].
  apply keeps_bind; [apply keeps_gets | intros min_gap].
  apply keeps_bind.
  { destruct (_ <? _); [apply keeps_sleep | apply keeps_ret]. }
  intros _. apply keeps_bind; [apply keeps_gets | intros t'].
  apply keeps_modify. intros w. apply R_last_llm_call.
Qed.

Lemma keeps_read_lock_poll fuel start :
  keeps R (_read_lock_poll fuel start).
Proof.
  induction fuel as [|fuel IH]; intros w; simpl;
    destruct (lockdir w); try apply R_lockdir;
    destruct (5000 <=? now w - start); try apply R_refl.
  exact (keeps_bind _ _ (keeps_sleep 50) (fun _ => IH) w).
Qed.

Lemma keeps_read_inbox : keeps R _read_inbox.
Proof.
  intros w. unfold _read_inbox. destruct (inbox w) as [d|]; [|apply R_refl].
  revert w. apply keeps_bind; [apply keeps_gets | intros start].
  apply keeps_bind; [apply keeps_read_lock_poll | intros got].
  apply keeps_bind; [| intros _; apply keeps_ret].
  destruct got; [| apply keeps_ret].
  apply keeps_modify. intros w. apply R_lockdir.
Qed.

Lemma keeps_draft_exists mail_id : keeps R (_draft_exists_for mail_id).
Proof.
  unfold _draft_exists_for.
  apply keeps_bind; [apply keeps_read_inbox | intros data].
  apply keeps_ret.
Qed.

End Frames.

(** ** The quota backoff *)

Lemma same_backoff_refl w : same_backoff w w.
Proof. by repeat split. Qed.

Lemma same_backoff_trans w1 w2 w3 :
  same_backoff w1 w2 -> same_backoff w2 w3 -> same_backoff w1 w3.
Proof.
  intros (a1 & b1 & c1 & d1 & e1) (a2 & b2 & c2 & d2 & e2).
  repeat split; congruence.
Qed.

(** [keeps same_backoff], for the lemmas of the section [Frames]. *)
Ltac backoff_side :=
  match goal with
  | |- forall w, same_backoff w w => exact same_backoff_refl
  | |- forall w1 w2 w3, _ -> _ -> same_backoff w1 w3 =>
      exact same_backoff_trans
  | |- forall _ w, same_backoff w _ => by (intros; repeat split)
  | |- _ => idtac
  end.

Ltac backoff_frame lem := apply (lem same_backoff); backoff_side.

Lemma set_quota_backoff_run message w1 :
  exists w',
    _set_quota_backoff message w1 = (inr tt, w')
    /\ backoff_set (Exn ValueError message) w1 w'.
Proof.
  unfold _set_quota_backoff, bind, gets, modify, set_last_error, ret.
  simpl. destruct (1000 <? now w1 - _last_quota_log w1);
    (eexists; split; [reflexivity|]; repeat split; simpl; lia).
Qed.

Lemma stage_failed_run e w1 :
  handled (stage_failed e w1) e w1 true false.
Proof.
  unfold handled, stage_failed.
  destruct (_is_quota_or_token_error e); [|done].
  destruct (set_quota_backoff_run (emsg e) w1) as (w' & Hrun & Hset).
  exists w'. unfold bind. rewrite Hrun. done.
Qed.

Lemma stage_handler {A} (body : M A) (on_quota on_other : A) h w e w1 :
  (forall e w1,
     h e w1 = (inr (if _is_quota_or_token_error e
                    then on_quota else on_other),
               (stage_failed e w1).2)) ->
  body w = (inl e, w1) ->
  handled (try_except body h w) e w1 on_quota on_other.
Proof.
  intros Hh Hb. unfold try_except. rewrite Hb, Hh.
  pose proof (stage_failed_run e w1) as H. unfold handled in *.
  destruct (_is_quota_or_token_error e).
  - destruct H as (w' & Hrun & Hset). exists w'. by rewrite Hrun.
  - by rewrite H.
Qed.

Lemma stage_failed_result e w1 :
  stage_failed e w1
  = (inr (if _is_quota_or_token_error e then true else false),
     (stage_failed e w1).2).
Proof.
  pose proof (stage_failed_run e w1) as H. unfold handled in H.
  destruct (_is_quota_or_token_error e).
  - destruct H as (w' & -> & _). done.
  - by rewrite H.
Qed.

Lemma stage_failed_unit_result e w1 :
  (stage_failed e ;;; ret tt) w1
  = (inr (if _is_quota_or_token_error e then tt else tt),
     (stage_failed e w1).2).
Proof.
  unfold bind. rewrite stage_failed_result. simpl.
  by destruct (_is_quota_or_token_error e).
Qed.

Section Backoff.

Context (rt : runtime).

Lemma categorize_try_keeps mail : keeps same_backoff (categorize_try rt mail).
Proof.
  unfold categorize_try.
  backoff_frame keeps_bind; [backoff_frame keeps_throttle | intros _].
  backoff_frame keeps_bind;
    [backoff_frame keeps_smart_categorizer | intros _].
  backoff_frame keeps_ret.
Qed.

Lemma draft_extract_try_keeps mail :
  keeps same_backoff (draft_extract_try rt mail).
Proof.
  unfold draft_extract_try.
  backoff_frame keeps_bind; [backoff_frame keeps_throttle | intros _].
  backoff_frame keeps_bind;
    [backoff_frame keeps_action_item_extractor | intros _].
  backoff_frame keeps_ret.
Qed.

Lemma extract_try_keeps mail : keeps same_backoff (extract_try rt mail).
Proof.
  unfold extract_try.
  destruct (_normalize_action_items rt _); [| backoff_frame keeps_ret].
  backoff_frame keeps_bind; [backoff_frame keeps_throttle | intros _].
  backoff_frame keeps_bind;
    [backoff_frame keeps_action_item_extractor | intros _].
  backoff_frame keeps_ret.
Qed.

End Backoff.

Lemma category_lower_world mail w : (category_lower mail w).2 = w.
Proof. unfold category_lower. by destruct (py_or _ _). Qed.

Lemma clear_quota_backoff_run w :
  exists w',
    _clear_quota_backoff w = (inr tt, w')
    /\ backoff_cleared w' /\ inbox w' = inbox w /\ now w' = now w
    /\ gw_calls w' = gw_calls w.
Proof. eexists. split; [reflexivity|]. by repeat split. Qed.

Section BackoffStages.

Context (rt : runtime).

Lemma draft_try_failed mail w e w1 :
  draft_try rt mail w = (inl e, w1) -> same_backoff w w1.
Proof.
  unfold draft_try. unfold bind at 1.
  pose proof (category_lower_world mail w) as Hw.
  destruct (category_lower mail w) as [[e0|cat] w0]; simpl in Hw; subst w0.
  { intros [= <- <-]. apply same_backoff_refl. }
  destruct (String.eqb cat "draft"); [discriminate|].
  unfold bind at 1.
  assert (keeps same_backoff (_draft_exists_for (mget "id" mail))) as Hk1
    by backoff_frame keeps_draft_exists.
  specialize (Hk1 w).
  destruct (_draft_exists_for (mget "id" mail) w) as [[e1|b] w2];
    simpl in Hk1.
  { by intros [= <- <-]. }
  destruct b; [discriminate|].
  unfold bind at 1.
  assert (keeps same_backoff _throttle) as Hk2
    by backoff_frame keeps_throttle.
  specialize (Hk2 w2).
  destruct (_throttle w2) as [[e2|[]] w3]; simpl in Hk2.
  { intros [= <- <-]. by eapply same_backoff_trans. }
  unfold bind at 1.
  assert (keeps same_backoff (AI_mail_drafter rt mail None)) as Hk3
    by backoff_frame keeps_AI_mail_drafter.
  specialize (Hk3 w3).
  destruct (AI_mail_drafter rt mail None w3) as [[e3|txt] w4];
    simpl in Hk3.
  { intros [= <- <-].
    eapply same_backoff_trans; [|done].
    by eapply same_backoff_trans. }
  discriminate.
Qed.

Lemma draft_try_drafted mail w cat w1 w2 txt w3 :
  category_lower mail w = (inr cat, w) ->
  cat <> "draft" ->
  _draft_exists_for (mget "id" mail) w = (inr false, w1) ->
  _throttle w1 = (inr tt, w2) ->
  AI_mail_drafter rt mail None w2 = (inr txt, w3) ->
  draft_stage rt mail w = _clear_quota_backoff w3.
Proof.
  intros Hc Hcat Hd Ht Ha. unfold draft_stage, try_except, draft_try.
  unfold bind at 1. rewrite Hc.
  rewrite (proj2 (String.eqb_neq _ _) Hcat).
  unfold bind at 1. rewrite Hd.
  unfold bind at 1. rewrite Ht.
  unfold bind at 1. rewrite Ha. done.
Qed.

Lemma process_one_mail_idle mail w :
  0 < Z.max 0 (_quota_backoff_until w - now w) ->
  _process_one_mail rt mail w = (inr tt, w).
Proof.
  intros H. unfold _process_one_mail, bind at 1.
  unfold _quota_backoff_active, gets.
  by rewrite (proj2 (Z.ltb_lt _ _) H).
Qed.

Lemma process_one_mail_run mail w cat :
  _quota_backoff_until w <= now w ->
  category_lower mail w = (inr cat, w) ->
  _process_one_mail rt mail w
  = if String.eqb cat "draft" then draft_extract_stage rt mail w
    else
      (stop <- categorize_stage rt mail ;;
       if stop then ret tt
       else
         sleep 200 ;;;
         stop <- extract_stage rt mail ;;
         if stop then ret tt
         else sleep 200 ;;; draft_stage rt mail) w.
Proof.
  intros H Hc. unfold _process_one_mail. unfold bind at 1.
  unfold _quota_backoff_active, gets.
  replace (0 <? Z.max 0 (_quota_backoff_until w - now w)) with false
    by (symmetry; apply Z.ltb_ge; lia).
  unfold bind at 1. rewrite Hc. by destruct (String.eqb cat "draft").
Qed.

End BackoffStages.

(** C4.  When the [try] block of a stage of [_process_one_mail] raises,
    the backoff state is still as the stage found it; if the message of
    the exception contains a quota keyword the stage then sets the
    deadline to the larger of the old one and [now] plus the configured
    pause ([RETRY_BACKOFF_SECONDS], 60 s unless configured), so to at least
    [now] plus that pause, and records the message with the time, in
    memory and in the signal file; otherwise the stage changes nothing
    more.  A quota failure of the categorizer or of the extractor ends
    [_process_one_mail] in that state, and the draft stage and the
    extraction for drafts are its last steps.  When [AI_mail_drafter]
    returns in the draft stage, the deadline is reset to 0 and the error
    record and the signal file are cleared. *)
Theorem quota_backoff_state_machine
    (rt : runtime) (mail : gmap string jval) (w : world) :
  (forall e w1,
     (py_truthy (mget "category" mail) = false ->
      categorize_try rt mail w = (inl e, w1) ->
      same_backoff w w1
      /\ handled (categorize_stage rt mail w) e w1 true false)
     /\ (extract_try rt mail w = (inl e, w1) ->
         same_backoff w w1
         /\ handled (extract_stage rt mail w) e w1 true false)
     /\ (draft_try rt mail w = (inl e, w1) ->
         same_backoff w w1
         /\ handled (draft_stage rt mail w) e w1 tt tt)
     /\ (draft_extract_try rt mail w = (inl e, w1) ->
         same_backoff w w1
         /\ handled (draft_extract_stage rt mail w) e w1 tt tt))
  /\ (0 < Z.max 0 (_quota_backoff_until w - now w) ->
      _process_one_mail rt mail w = (inr tt, w))
  /\ (forall cat,
        _quota_backoff_until w <= now w ->
        category_lower mail w = (inr cat, w) ->
        (cat = "draft" ->
         _process_one_mail rt mail w = draft_extract_stage rt mail w)
        /\ (cat <> "draft" ->
            forall w1,
              categorize_stage rt mail w = (inr true, w1) ->
              _process_one_mail rt mail w = (inr tt, w1))
        /\ (cat <> "draft" ->
            forall w1 w2,
              categorize_stage rt mail w = (inr false, w1) ->
              extract_stage rt mail (set_now (now w1 + 200) w1)
              = (inr true, w2) ->
              _process_one_mail rt mail w = (inr tt, w2))
        /\ (cat <> "draft" ->
            forall w1 w2,
              categorize_stage rt mail w = (inr false, w1) ->
              extract_stage rt mail (set_now (now w1 + 200) w1)
              = (inr false, w2) ->
              _process_one_mail rt mail w
              = draft_stage rt mail (set_now (now w2 + 200) w2)))
  /\ (forall cat w1 w2 txt w3,
        category_lower mail w = (inr cat, w) ->
        cat <> "draft" ->
        _draft_exists_for (mget "id" mail) w = (inr false, w1) ->
        _throttle w1 = (inr tt, w2) ->
        AI_mail_drafter rt mail None w2 = (inr txt, w3) ->
        exists w',
          draft_stage rt mail w = (inr tt, w')
          /\ backoff_cleared w'
          /\ inbox w' = inbox w3
          /\ (0 <= now w' -> _quota_backoff_active w' = (inr 0, w'))).
Proof.
  split; [|split; [|split]].
  - intros e w1. split; [|split; [|split]].
    + intros Hcat Hb. split.
      * pose proof (categorize_try_keeps rt mail w) as H. by rewrite Hb in H.
      * unfold categorize_stage. rewrite Hcat. simpl.
        apply stage_handler; [|done]. intros e' w'.
        apply stage_failed_result.
    + intros Hb. split.
      * pose proof (extract_try_keeps rt mail w) as H. by rewrite Hb in H.
      * apply stage_handler; [|done]. intros e' w'.
        apply stage_failed_result.
    + intros Hb. split.
      * by eapply draft_try_failed.
      * apply stage_handler; [|done]. intros e' w'.
        apply stage_failed_unit_result.
    + intros Hb. split.
      * pose proof (draft_extract_try_keeps rt mail w) as H.
        by rewrite Hb in H.
      * apply stage_handler; [|done]. intros e' w'.
        apply stage_failed_unit_result.
  - apply process_one_mail_idle.
  - intros cat Hq Hc.
    rewrite (process_one_mail_run rt mail w cat Hq Hc).
    split; [|split; [|split]].
    + by intros ->.
    + intros Hcat w1 H1. rewrite (proj2 (String.eqb_neq _ _) Hcat).
      unfold bind. by rewrite H1.
    + intros Hcat w1 w2 H1 H2. rewrite (proj2 (String.eqb_neq _ _) Hcat).
      unfold bind at 1. rewrite H1.
      unfold bind at 1. unfold sleep, modify.
      unfold bind at 1. change (Z.max 0 200) with 200. by rewrite H2.
    + intros Hcat w1 w2 H1 H2. rewrite (proj2 (String.eqb_neq _ _) Hcat).
      unfold bind at 1. rewrite H1.
      unfold bind at 1. unfold sleep at 1, modify.
      unfold bind at 1. change (Z.max 0 200) with 200. rewrite H2.
      unfold bind, sleep, modify. done.
  - intros cat w1 w2 txt w3 Hc Hcat Hd Ht Ha.
    rewrite (draft_try_drafted rt mail w cat w1 w2 txt w3) by done.
    destruct (clear_quota_backoff_run w3) as (w' & -> & Hclr & Hin & Hn & _).
    exists w'. repeat split; try done; try apply Hclr.
    intros Hnow. unfold _quota_backoff_active, gets.
    destruct Hclr as (-> & _). do 2 f_equal. lia.
Qed.

Lemma quota_backoff_state_machine_witness :
  exists w',
    categorize_stage demo_runtime mail_1 quota_world = (inr true, w')
    /\ now w' + 60000 <= _quota_backoff_until w'
    /\ _last_error w'
       = Some ("Failed to categorize after 5 attempts. Last error: "
               +:+ "Quota exceeded (429).", now w').
Proof.
  pose proof (quota_backoff_state_machine demo_runtime mail_1 quota_world)
    as [H _].
  destruct (H (Exn GatewayError
                 ("Failed to categorize after 5 attempts. Last error: "
                  +:+ "Quota exceeded (429)."))
              (categorize_try demo_runtime mail_1 quota_world).2)
    as [Hcat _].
  destruct Hcat as [_ Hh].
  - reflexivity.
  - by vm_compute.
  - unfold handled in Hh.
    change (_is_quota_or_token_error
              (Exn GatewayError
                 ("Failed to categorize after 5 attempts. Last error: "
                  +:+ "Quota exceeded (429).")))
      with true in Hh.
    destruct Hh as (w' & Hrun & Hu & Hn & Hr & Hle & Herr & _).
    exists w'. split; [exact Hrun|]. split.
    + rewrite Hr in Hle. exact Hle.
    + rewrite Herr, Hn. reflexivity.
Defined.

(** ** A pass of the orchestrator over a mailbox that needs nothing *)

Lemma calm_refl w : calm w w.
Proof. repeat split; lia. Qed.

Lemma calm_trans w1 w2 w3 : calm w1 w2 -> calm w2 w3 -> calm w1 w3.
Proof.
  intros (a1 & b1 & c1 & d1) (a2 & b2 & c2 & d2).
  repeat split; try congruence; lia.
Qed.

Lemma throttle_calm w : exists w', _throttle w = (inr tt, w') /\ calm w w'.
Proof.
  unfold _throttle, bind, gets, modify, sleep, ret. simpl.
  destruct (_ <? _); simpl;
    (eexists; split; [reflexivity|]; repeat split; simpl; lia).
Qed.

Lemma read_lock_poll_calm fuel start w :
  exists got w', _read_lock_poll fuel start w = (inr got, w') /\ calm w w'.
Proof.
  revert w. induction fuel as [|fuel IH]; intros w; simpl;
    destruct (lockdir w);
    try (do 2 eexists; split; [reflexivity|]; repeat split; simpl; lia);
    destruct (5000 <=? now w - start);
    try (do 2 eexists; split; [reflexivity|]; repeat split; simpl; lia).
  unfold bind, sleep, modify. simpl.
  destruct (IH (set_now (now w + Z.max 0 50) w)) as (got & w' & -> & Hc).
  exists got, w'. split; [done|].
  eapply calm_trans; [|exact Hc]. repeat split; simpl; lia.
Qed.

Lemma read_inbox_calm w :
  exists w',
    _read_inbox w = (inr (default empty_inbox (inbox w)), w') /\ calm w w'.
Proof.
  unfold _read_inbox. destruct (inbox w) as [d|] eqn:Hd.
  - destruct (read_lock_poll_calm 100 (now w) w) as (got & w1 & Hp & Hc).
    remember (_read_lock_poll 100) as poll eqn:Hpoll.
    unfold bind, gets. simpl. rewrite Hp.
    destruct got; simpl.
    + eexists. split; [reflexivity|].
      eapply calm_trans; [exact Hc|]. repeat split; simpl; lia.
    + eexists. split; [reflexivity|]. done.
  - exists w. split; [done | apply calm_refl].
Qed.

Lemma draft_exists_calm mail_id w :
  exists w',
    _draft_exists_for mail_id w
    = (inr (existsb (refers_to mail_id)
                    (emails (default empty_inbox (inbox w)))), w')
    /\ calm w w'.
Proof.
  unfold _draft_exists_for, bind.
  destruct (read_inbox_calm w) as (w' & -> & Hc). by exists w'.
Qed.

Section Settled.

Context (rt : runtime) (d : document).

Lemma normalize_list fuel x l :
  normalize_action_items rt fuel (JList (x :: l)) <> [].
Proof. by destruct fuel. Qed.

Lemma settled_category mail w :
  settled d mail ->
  exists s, lower s <> "draft"
            /\ py_truthy (mget "category" mail) = true
            /\ category_lower mail w = (inr (lower s), w).
Proof.
  intros [(s & Hs & Hne & Hl) _]. exists s. split; [done|].
  unfold category_lower, mget. rewrite Hs. simpl.
  unfold py_or. simpl.
  rewrite (proj2 (String.eqb_neq _ _) Hne). done.
Qed.

Lemma categorize_settled mail w :
  settled d mail -> categorize_stage rt mail w = (inr false, w).
Proof.
  intros H. destruct (settled_category mail w H) as (s & _ & Ht & _).
  unfold categorize_stage. by rewrite Ht.
Qed.

Lemma extract_settled mail w :
  settled d mail -> extract_stage rt mail w = (inr false, w).
Proof.
  intros (_ & (x & l & Hx) & _).
  unfold extract_stage, try_except, extract_try, mget. rewrite Hx.
  simpl. unfold py_or. simpl. unfold _normalize_action_items.
  pose proof (normalize_list 1000 x l) as Hn.
  by destruct (normalize_action_items rt 1000 (JList (x :: l))).
Qed.

Lemma draft_settled mail w :
  settled d mail -> inbox w = Some d ->
  exists w',
    draft_stage rt mail w = (inr tt, w')
    /\ inbox w' = inbox w /\ gw_calls w' = gw_calls w
    /\ now w <= now w'
    /\ (_quota_backoff_until w' = _quota_backoff_until w
        \/ _quota_backoff_until w' = 0).
Proof.
  intros H Hd. destruct (settled_category mail w H) as (s & Hl & _ & Hc).
  destruct H as (_ & _ & Hdr).
  unfold draft_stage, try_except, draft_try.
  unfold bind at 1. rewrite Hc.
  rewrite (proj2 (String.eqb_neq _ _) Hl).
  unfold bind at 1.
  destruct (draft_exists_calm (mget "id" mail) w)
    as (w1 & -> & Hc1). rewrite Hd. simpl.
  destruct (existsb (refers_to (mget "id" mail)) (emails d)) eqn:He.
  { exists w1. destruct Hc1 as (? & ? & ? & ?).
    repeat split; auto; congruence. }
  destruct Hdr as [Hdr | Hdr]; [|congruence].
  unfold bind at 1. destruct (throttle_calm w1) as (w2 & -> & Hc2).
  unfold bind at 1. unfold AI_mail_drafter. rewrite Hdr.
  unfold ret at 1.
  destruct (clear_quota_backoff_run w2)
    as (w3 & -> & (Hu & _) & Hin & Hn & Hg).
  exists w3. destruct Hc1 as (? & ? & ? & ?). destruct Hc2 as (? & ? & ? & ?).
  repeat split; try congruence; lia.
Qed.

Lemma process_settled mail w :
  settled d mail -> inbox w = Some d ->
  exists w',
    _process_one_mail rt mail w = (inr tt, w')
    /\ inbox w' = inbox w /\ gw_calls w' = gw_calls w
    /\ now w <= now w'
    /\ (_quota_backoff_until w' = _quota_backoff_until w
        \/ _quota_backoff_until w' = 0).
Proof.
  intros H Hd.
  destruct (Z.lt_ge_cases 0 (Z.max 0 (_quota_backoff_until w - now w)))
    as [Hact | Hin].
  { rewrite process_one_mail_idle by done. exists w.
    repeat split; auto; lia. }
  destruct (settled_category mail w H) as (s & Hl & _ & Hc).
  rewrite (process_one_mail_run rt mail w (lower s)) by (done || lia).
  rewrite (proj2 (String.eqb_neq _ _) Hl).
  unfold bind at 1. rewrite categorize_settled by done.
  unfold bind at 1. unfold sleep at 1, modify.
  unfold bind at 1. rewrite extract_settled by done.
  unfold bind at 1. unfold sleep at 1, modify.
  destruct (draft_settled mail
              (set_now (now (set_now (now w + Z.max 0 200) w)
                        + Z.max 0 200)
                       (set_now (now w + Z.max 0 200) w)) H Hd)
    as (w' & -> & Hi & Hg & Hn & Hu).
  exists w'. simpl in *. repeat split; auto; lia.
Qed.

Context (delay_between : Z) (all_settled : Forall (settled d) (emails d)).

(** The turns of the loop once no backoff is active. *)
Lemma loop_settled n :
  forall fuel idx w,
    inbox w = Some d -> 0 <= now w -> _quota_backoff_until w <= now w ->
    (length (emails d) - idx <= n)%nat -> (n < fuel)%nat ->
    exists w',
      process_loop rt fuel delay_between (emails d) idx w
      = (inr (Some tt), w')
      /\ inbox w' = inbox w /\ gw_calls w' = gw_calls w
      /\ now w <= now w'
      /\ (_quota_backoff_until w' = _quota_backoff_until w
          \/ _quota_backoff_until w' = 0).
Proof.
  induction n as [|n IH]; intros fuel idx w Hd Hnow Hq Hn Hf;
    (destruct fuel as [|fuel]; [lia|]); simpl.
  - replace (idx <? length (emails d))%nat with false
      by (symmetry; apply Nat.ltb_ge; lia).
    exists w. repeat split; auto; lia.
  - destruct (idx <? length (emails d))%nat eqn:Hidx; simpl.
    2:{ exists w. repeat split; auto; lia. }
    apply Nat.ltb_lt in Hidx.
    unfold bind at 1. unfold _quota_backoff_active, gets.
    replace (0 <? Z.max 0 (_quota_backoff_until w - now w)) with false
      by (symmetry; apply Z.ltb_ge; lia).
    destruct (lookup_lt_is_Some_2 (emails d) idx Hidx) as [mail Hmail].
    rewrite Hmail.
    assert (exists w1,
              try_except
                (current <- _read_inbox ;;
                 match find (id_matches (mget "id" mail)) (emails current)
                 with
                 | Some fresh =>
                     _process_one_mail rt fresh ;;; sleep delay_between
                 | None => ret tt
                 end)
                (fun _ => ret tt) w = (inr tt, w1)
              /\ inbox w1 = inbox w /\ gw_calls w1 = gw_calls w
              /\ now w <= now w1
              /\ _quota_backoff_until w1 <= now w1
              /\ (_quota_backoff_until w1 = _quota_backoff_until w
                  \/ _quota_backoff_until w1 = 0))
      as (w1 & Hrun & Hstep).
    { unfold try_except. unfold bind at 1.
      destruct (read_inbox_calm w) as (wa & -> & Hca). rewrite Hd. simpl.
      destruct Hca as (Hia & Hga & Hna & Hua).
      destruct (find (id_matches (mget "id" mail)) (emails d))
        as [fresh|] eqn:Hfind.
      - apply find_some in Hfind as [Hin _].
        apply list_elem_of_In in Hin.
        pose proof (proj1 (Forall_forall _ _) all_settled fresh Hin) as Hs.
        unfold bind at 1.
        destruct (process_settled fresh wa Hs ltac:(congruence))
          as (wb & -> & Hib & Hgb & Hnb & Hub).
        eexists. split; [reflexivity|]. simpl.
        repeat split; try congruence; lia.
      - exists wa. repeat split; try congruence; lia. }
    unfold bind at 1. rewrite Hrun.
    destruct Hstep as (Hi1 & Hg1 & Hn1 & Hq1 & Hu1).
    destruct (IH fuel (S idx) w1) as (w' & -> & Hi & Hg & Hn' & Hu');
      try congruence; try lia.
    exists w'. repeat split; try congruence; lia.
Qed.

(** The turns that wait out a backoff, and then the rest. *)
Lemma loop_waits k :
  forall fuel idx w,
    inbox w = Some d -> 0 <= now w ->
    _quota_backoff_until w - now w <= 2000 * Z.of_nat k ->
    (k + length (emails d) < fuel)%nat ->
    exists w',
      process_loop rt fuel delay_between (emails d) idx w
      = (inr (Some tt), w')
      /\ inbox w' = inbox w /\ gw_calls w' = gw_calls w
      /\ now w <= now w'
      /\ (_quota_backoff_until w' = _quota_backoff_until w
          \/ _quota_backoff_until w' = 0).
Proof.
  induction k as [|k IH]; intros fuel idx w Hd Hnow Hq Hf.
  - apply (loop_settled (length (emails d))); auto; lia.
  - destruct (Z.le_gt_cases (_quota_backoff_until w) (now w)) as [Hin|Hact].
    { apply (loop_settled (length (emails d))); auto; lia. }
    destruct fuel as [|fuel]; [lia|]. simpl.
    destruct (idx <? length (emails d))%nat eqn:Hidx; simpl.
    2:{ exists w. repeat split; auto; lia. }
    unfold bind at 1. unfold _quota_backoff_active, gets.
    replace (0 <? Z.max 0 (_quota_backoff_until w - now w)) with true
      by (symmetry; apply Z.ltb_lt; lia).
    unfold bind at 1. unfold sleep, modify.
    unfold bind at 1.
    destruct (read_inbox_calm
                (set_now
                   (now w
                    + Z.max 0
                        (Z.min (Z.max 0 (_quota_backoff_until w - now w))
                               2000)) w))
      as (w1 & -> & Hi1 & Hg1 & Hn1 & Hu1).
    simpl in *. rewrite Hd. simpl.
    destruct (IH fuel 0%nat w1) as (w' & -> & Hi & Hg & Hn' & Hu');
      try congruence; try lia.
    exists w'. repeat split; try congruence; lia.
Qed.

End Settled.

Lemma backoff_turns_cover w :
  _quota_backoff_until w - now w <= 2000 * Z.of_nat (backoff_turns w).
Proof.
  unfold backoff_turns.
  set (x := Z.max 0 (_quota_backoff_until w - now w)).
  assert (0 <= x) as Hx by (unfold x; lia).
  rewrite Z2Nat.id by (apply Z.div_pos; lia).
  pose proof (Z.div_mod (x + 1999) 2000 ltac:(lia)) as Hdm.
  pose proof (Z.mod_pos_bound (x + 1999) 2000 ltac:(lia)) as Hb.
  unfold x in *. lia.
Qed.

Lemma backoff_turns_mono w w' :
  now w <= now w' ->
  (_quota_backoff_until w' = _quota_backoff_until w
   \/ _quota_backoff_until w' = 0) ->
  0 <= now w ->
  (backoff_turns w' <= backoff_turns w)%nat.
Proof.
  intros Hn Hu H0. unfold backoff_turns.
  apply Z2Nat.inj_le; try (apply Z.div_pos; lia).
  apply Z.div_le_mono; lia.
Qed.

Lemma pass_settled rt d delay_between fuel w :
  inbox w = Some d ->
  Forall (settled d) (emails d) ->
  0 <= now w ->
  (backoff_turns w + length (emails d) < fuel)%nat ->
  exists w',
    process_mails_sequentially rt fuel delay_between w = (inr (Some tt), w')
    /\ inbox w' = Some d /\ gw_calls w' = gw_calls w
    /\ 0 <= now w'
    /\ (backoff_turns w' <= backoff_turns w)%nat.
Proof.
  intros Hd Hall Hnow Hf. unfold process_mails_sequentially.
  unfold bind at 1.
  destruct (read_inbox_calm w) as (w0 & -> & Hi0 & Hg0 & Hn0 & Hu0).
  rewrite Hd. simpl.
  destruct (emails d) as [|e es] eqn:Hes.
  { exists w0. repeat split; try congruence; try lia.
    apply backoff_turns_mono; auto; lia. }
  rewrite <- Hes in *.
  pose proof (backoff_turns_cover w) as Hcov.
  destruct (loop_waits rt d delay_between Hall (backoff_turns w) fuel 0%nat w0)
    as (w' & -> & Hi & Hg & Hn & Hu); try congruence; try lia.
  exists w'. repeat split; try congruence; try lia.
  apply backoff_turns_mono; auto; lia.
Qed.

(** C2, as the specification states it: mailboxes in which every mail has
    a non-empty category, non-empty action items and [draftable] set, that
    a first pass leaves as they are, and on which the second pass sends
    requests: one to extract the action items of a draft again, five to
    draft a reply for a mail whose [draftable] is not 0.  The draft is
    extracted again also when its category reads [Draft], and when it is
    the draft of a mail of the mailbox: that mail costs no request, its
    draft costs one at every pass. *)
Lemma processed_mailbox_still_calls :
  (Forall processed (emails drafts_only)
   /\ inbox (pass drafts_world) = Some drafts_only
   /\ gw_calls (pass (pass drafts_world))
      = (gw_calls (pass drafts_world) + 1)%nat)
  /\ (Forall processed (emails undrafted)
      /\ inbox (pass undrafted_world) = Some undrafted
      /\ gw_calls (pass (pass undrafted_world))
         = (gw_calls (pass undrafted_world) + 5)%nat)
  /\ (Forall processed (emails capital_draft)
      /\ inbox (pass capital_draft_world) = Some capital_draft
      /\ gw_calls (pass (pass capital_draft_world))
         = (gw_calls (pass capital_draft_world) + 1)%nat)
  /\ (Forall processed (emails drafted)
      /\ inbox (pass drafted_world) = Some drafted
      /\ gw_calls (pass (pass drafted_world))
         = (gw_calls (pass drafted_world) + 1)%nat).
Proof.
  split; [|split; [|split]]; (split; [|split; by vm_compute]);
    repeat constructor; repeat eexists; try reflexivity; discriminate.
Qed.

Lemma no_draft_among_settled d mail_id (es : list (gmap string jval)) :
  Forall (settled d) es -> existsb (refers_to mail_id) es = false.
Proof.
  induction 1 as [|m es Hm _ IH]; simpl; [done|].
  rewrite IH, orb_false_r.
  destruct Hm as [(s & Hs & Hne & Hl) _].
  unfold refers_to, mget, py_or. rewrite Hs. simpl.
  rewrite (proj2 (String.eqb_neq _ _) Hne). simpl.
  by rewrite (proj2 (String.eqb_neq _ _) Hl).
Qed.

(** C2, amended.  A mail needs nothing when its category is a non-empty
    text that is not [draft] in any letter case, its action items are a
    non-empty list, and either its [draftable] equals 0 or a draft of the
    mailbox refers to it.  For such a mail [_process_one_mail] returns
    having sent no request and with the mailbox as it was.  A mailbox in
    which every mail is such holds no draft, so that each of its mails has
    [draftable] equal to 0; on it a pass of [process_mails_sequentially]
    returns, as soon as its fuel covers the mails and the turns of a
    pending backoff, having sent no request and with the mailbox as it
    was, and so does the pass after it. *)
Theorem settled_pass_sends_no_request
    (rt : runtime) (d : document) (delay_between : Z) (fuel : nat)
    (w : world) :
  inbox w = Some d ->
  (forall mail,
     settled d mail ->
     exists w',
       _process_one_mail rt mail w = (inr tt, w')
       /\ gw_calls w' = gw_calls w /\ inbox w' = Some d)
  /\ (Forall (settled d) (emails d) ->
      Forall (fun mail => py_eq (mget "draftable" mail) (JInt 0) = true)
             (emails d))
  /\ (Forall (settled d) (emails d) ->
      0 <= now w ->
      (backoff_turns w + length (emails d) < fuel)%nat ->
      exists w' w'',
        process_mails_sequentially rt fuel delay_between w
        = (inr (Some tt), w')
        /\ process_mails_sequentially rt fuel delay_between w'
           = (inr (Some tt), w'')
        /\ gw_calls w' = gw_calls w /\ gw_calls w'' = gw_calls w
        /\ inbox w' = Some d /\ inbox w'' = Some d).
Proof.
  intros Hd. split; [|split].
  - intros mail Hm.
    destruct (process_settled rt d mail w Hm Hd)
      as (w' & H1 & Hi & Hg & _).
    exists w'. split; [done|]. split; [done|]. congruence.
  - intros Hall. apply Forall_forall. intros mail Hin.
    pose proof (proj1 (Forall_forall _ _) Hall mail Hin) as (_ & _ & Hdr).
    destruct Hdr as [Hdr|Hdr]; [done|].
    by rewrite (no_draft_among_settled d) in Hdr.
  - intros Hall Hnow Hf.
    destruct (pass_settled rt d delay_between fuel w Hd Hall Hnow Hf)
      as (w' & H1 & Hi1 & Hg1 & Hn1 & Hb1).
    destruct (pass_settled rt d delay_between fuel w' Hi1 Hall Hn1
                ltac:(lia))
      as (w'' & H2 & Hi2 & Hg2 & _).
    exists w', w''. repeat split; try done. congruence.
Qed.

Lemma drafted_mail_is_settled :
  settled drafted
    (<["id" := JInt 1]>
     (<["category" := JStr "work"]>
     (<["action_items" := JList [JObj [("task", JStr "Confirm")]]]>
     (<["draftable" := JInt 1]> demo_mail)))).
Proof.
  split; [|split].
  - exists "work". split; [reflexivity|]. split; [discriminate|].
    vm_compute. discriminate.
  - eexists _, _. reflexivity.
  - right. reflexivity.
Qed.

Lemma settled_inbox_is_settled : Forall (settled settled_inbox) (emails settled_inbox).
Proof.
  constructor; [|constructor]. split; [|split].
  - exists "work". split; [reflexivity|]. split; [discriminate|].
    vm_compute. discriminate.
  - eexists _, _. reflexivity.
  - left. reflexivity.
Qed.

Lemma settled_pass_sends_no_request_witness :
  (exists w' w'',
     process_mails_sequentially demo_runtime 10 200 settled_world
     = (inr (Some tt), w')
     /\ process_mails_sequentially demo_runtime 10 200 w'
        = (inr (Some tt), w'')
     /\ gw_calls w'' = 0%nat)
  /\ (exists w',
        _process_one_mail demo_runtime
          (<["id" := JInt 1]>
           (<["category" := JStr "work"]>
           (<["action_items" := JList [JObj [("task", JStr "Confirm")]]]>
           (<["draftable" := JInt 1]> demo_mail)))) drafted_world
        = (inr tt, w')
        /\ gw_calls w' = 0%nat).
Proof.
  split.
  - destruct (settled_pass_sends_no_request demo_runtime settled_inbox 200 10
                settled_world eq_refl) as (_ & _ & H).
    destruct (H settled_inbox_is_settled)
      as (w' & w'' & H1 & H2 & _ & Hg & _).
    + vm_compute. discriminate.
    + vm_compute. lia.
    + exists w', w''. split; [exact H1|]. split; [exact H2|]. exact Hg.
  - destruct (settled_pass_sends_no_request demo_runtime drafted 200 10
                drafted_world eq_refl) as (H & _).
    destruct (H _ drafted_mail_is_settled) as (w' & H1 & Hg & _).
    exists w'. split; [exact H1 | exact Hg].
Defined.
